(** * JSONPath lookup over fastjson values (jsonpath.go)

    A shallow embedding of the path compiler and the tree walker of
    [jsonpath.go]: the tokenizer, [parse_token], [parse_bracket_token],
    [Compile], [Lookup] and the accessors [get_key], [get_idx], [get_range],
    [get_filtered].

    Go strings are byte strings: they are [string] here, one [ascii] per byte.
    A [*Value] is an [option Value], [None] being the nil pointer.  A Go call
    ends in one of three ways: it returns values with a nil error, it returns a
    non-nil error, or it panics; [result] keeps the three apart. *)

From Stdlib Require Import ZArith List String Ascii Bool Lia.
Import ListNotations.
Open Scope string_scope.
Open Scope Z_scope.

(** ** Outcomes of a call *)

(** The error values the file builds with [fmt.Errorf] and [errors.New], one
    constructor per call site family; formatted operands that no caller
    inspects are dropped. *)
Inductive error : Type :=
| ErrGetFromNullObj                 (* get attribute from null object *)
| ErrShouldStartWithDollar          (* should start with '$' *)
| ErrFrontOfPath                    (* $ or @ should in front of path *)
| ErrTailLen (tail : string)        (* len(tail) should >=3 *)
| ErrOnlyOneRange                   (* only support one range(from, to) *)
| ErrInvalidToken (token : string)  (* invalid token *)
| ErrAtoi (text : string)           (* strconv.Atoi: a *NumError *)
| ErrEmptyKeySlice                  (* cannot index on empty key slice *)
| ErrEmptyIndexSlice                (* cannot index on empty index slice *)
| ErrRangeArgs                      (* range args length should be 2 *)
| ErrNotSupported                   (* expression don't support in filter *)
| ErrMultipleIndex                  (* don't support multiple index in filter *)
| ErrKeyNotFound (key : string)     (* key error: not found in object *)
| ErrNotMap (key : string)          (* fail to exec get_key, object is not map *)
| ErrIndexOutOfRange (len idx : Z)  (* index out of range *)
| ErrNotSlice                       (* fail to exec get_idx, object is not Slice *)
| ErrFromOutOfRange (len : Z)       (* index [from] out of range *)
| ErrToOutOfRange (len : Z)         (* index [to] out of range *)
| ErrEmptyRule                      (* empty rule *)
| ErrRegSyntax                      (* invalid syntax. should be in `/pattern/` form *)
| ErrRegexpCompile                  (* regexp.Compile failed *)
| ErrNilPat                         (* nil pat *)
| ErrOnlyStringMatch                (* only string can match with regular expression *)
| ErrFilterType                     (* don't support filter on this type *)
| ErrInvalidChar (idx : Z)          (* invalid char at idx *)
| ErrNotImplemented                 (* not implemented yet *)
| ErrBadOp                          (* op should only be <, <=, ==, >= and > *)
| ErrEval                           (* types.Eval failed *)
| ErrNotBool.                       (* result should only be true or false *)

(** The run-time panics the code can raise. *)
Inductive panic : Type :=
| IndexOutOfRange        (* index or slice bounds out of range *)
| NilDereference         (* field read through a nil pointer *)
| InterfaceConversion.   (* failed unchecked type assertion *)

Inductive result (A : Type) : Type :=
| Ok (x : A)
| Err (e : error)
| Panic (p : panic).
Arguments Ok {A} x.
Arguments Err {A} e.
Arguments Panic {A} p.

Definition bind {A B : Type} (r : result A) (k : A -> result B) : result B :=
  match r with
  | Ok x => k x
  | Err e => Err e
  | Panic p => Panic p
  end.

Notation "'let*' x ':=' r 'in' k" := (bind r (fun x => k))
  (at level 61, x pattern, r at next level, right associativity).

(** Whether a call came back to its caller (with values or with an error)
    instead of unwinding the stack. *)
Definition returns {A : Type} (r : result A) : bool :=
  match r with
  | Panic _ => false
  | _ => true
  end.

Definition is_error {A : Type} (r : result A) : bool :=
  match r with
  | Err _ => true
  | _ => false
  end.

(** ** Go strings *)

Module strings.

Fixpoint HasPrefix (s prefix : string) : bool :=
  match prefix, s with
  | EmptyString, _ => true
  | String _ _, EmptyString => false
  | String c p, String d r => Ascii.eqb c d && HasPrefix r p
  end.

Definition HasSuffix (s suffix : string) : bool :=
  let n := String.length s in
  let m := String.length suffix in
  (m <=? n)%nat && String.eqb (substring (n - m) m s) suffix.

(** Byte offset of the first occurrence of [substr], or -1. *)
Fixpoint Index (s substr : string) : Z :=
  if HasPrefix s substr then 0
  else match s with
       | EmptyString => -1
       | String _ r => let i := Index r substr in if i <? 0 then -1 else i + 1
       end.

Definition Contains (s substr : string) : bool := 0 <=? Index s substr.

Definition in_cutset (cutset : string) (c : ascii) : bool :=
  existsb (Ascii.eqb c) (list_ascii_of_string cutset).

Fixpoint TrimLeft (s cutset : string) : string :=
  match s with
  | EmptyString => EmptyString
  | String c r => if in_cutset cutset c then TrimLeft r cutset else s
  end.

Definition rev_string (s : string) : string :=
  string_of_list_ascii (rev (list_ascii_of_string s)).

Definition TrimRight (s cutset : string) : string :=
  rev_string (TrimLeft (rev_string s) cutset).

(** [strings.Trim]; every cutset in the file is one ASCII byte, for which
    the library trims byte by byte. *)
Definition Trim (s cutset : string) : string :=
  TrimRight (TrimLeft s cutset) cutset.

(** [strings.Split] for a non-empty separator: [cur] is the piece being
    read (reversed), [skip] the separator bytes still to drop. *)
Fixpoint split_go (sep : string) (skip : nat) (cur : list ascii) (s : string)
  : list string :=
  match s with
  | EmptyString => [string_of_list_ascii (rev cur)]
  | String c r =>
      match skip with
      | S k => split_go sep k cur r
      | O =>
          if HasPrefix s sep
          then string_of_list_ascii (rev cur)
                 :: split_go sep (String.length sep - 1) [] r
          else split_go sep O (c :: cur) r
      end
  end.

Definition Split (s sep : string) : list string := split_go sep O [] s.

End strings.

(** [s[i:j]] for in-range bounds. *)
Definition slice (s : string) (i j : nat) : string := substring i (j - i) s.

(** [s[i:]]. *)
Definition slice_from (s : string) (i : nat) : string :=
  substring i (String.length s - i) s.

Definition len (s : string) : Z := Z.of_nat (String.length s).

(** The 64-bit [int]: arithmetic wraps around in two's complement. *)
Definition int_min : Z := - 2 ^ 63.
Definition int_max : Z := 2 ^ 63 - 1.
Definition wrap_int (z : Z) : Z := (z + 2 ^ 63) mod 2 ^ 64 - 2 ^ 63.

Module strconv.

Definition is_digit (c : ascii) : bool :=
  let n := nat_of_ascii c in ((48 <=? n) && (n <=? 57))%nat.

Fixpoint digits_value (acc : Z) (s : string) : option Z :=
  match s with
  | EmptyString => Some acc
  | String c r =>
      if is_digit c
      then digits_value (acc * 10 + (Z.of_nat (nat_of_ascii c) - 48)) r
      else None
  end.

(** [strconv.Atoi]: an optional sign, then one or more decimal digits, the
    value within the range of [int]; the pair [(n, err)], [n] being 0 when
    [err] is not nil. *)
Definition Atoi (s : string) : Z * option error :=
  let '(neg, body) :=
    match s with
    | String "-" r => (true, r)
    | String "+" r => (false, r)
    | _ => (false, s)
    end in
  match body with
  | EmptyString => (0, Some (ErrAtoi s))
  | _ =>
      match digits_value 0 body with
      | None => (0, Some (ErrAtoi s))
      | Some n =>
          let v := if neg then - n else n in
          if (int_min <=? v) && (v <=? int_max) then (v, None)
          else (0, Some (ErrAtoi s))
      end
  end.

End strconv.

(** ** Runes

    [for idx, x := range s] decodes UTF-8: [x] is the code point and [idx]
    the byte offset where it starts; a byte that starts no valid encoding
    yields U+FFFD and is one byte wide.  [string(x)] encodes back. *)

Definition rune : Type := Z.
Definition RuneError : rune := 65533.

Definition byte_at (s : string) (i : nat) : Z :=
  match String.get i s with
  | Some c => Z.of_nat (nat_of_ascii c)
  | None => -1
  end.

Definition is_cont (b : Z) : bool := (128 <=? b) && (b <=? 191).

(** [utf8.DecodeRuneInString]: the rune at the head of a non-empty [s] and
    its width in bytes. *)
Definition DecodeRune (s : string) : rune * nat :=
  let b0 := byte_at s 0 in
  let b1 := byte_at s 1 in
  let b2 := byte_at s 2 in
  let b3 := byte_at s 3 in
  if b0 <? 128 then (b0, 1%nat)
  else if (194 <=? b0) && (b0 <=? 223) then
    if is_cont b1 then ((b0 - 192) * 64 + (b1 - 128), 2%nat) else (RuneError, 1%nat)
  else if (224 <=? b0) && (b0 <=? 239) then
    let lo := if b0 =? 224 then 160 else 128 in
    let hi := if b0 =? 237 then 159 else 191 in
    if (lo <=? b1) && (b1 <=? hi) && is_cont b2
    then ((b0 - 224) * 4096 + (b1 - 128) * 64 + (b2 - 128), 3%nat)
    else (RuneError, 1%nat)
  else if (240 <=? b0) && (b0 <=? 244) then
    let lo := if b0 =? 240 then 144 else 128 in
    let hi := if b0 =? 244 then 143 else 191 in
    if (lo <=? b1) && (b1 <=? hi) && is_cont b2 && is_cont b3
    then ((b0 - 240) * 262144 + (b1 - 128) * 4096 + (b2 - 128) * 64 + (b3 - 128), 4%nat)
    else (RuneError, 1%nat)
  else (RuneError, 1%nat).

Fixpoint range_go (idx : Z) (skip : nat) (s : string) : list (Z * rune) :=
  match s with
  | EmptyString => []
  | String _ r =>
      match skip with
      | S k => range_go (idx + 1) k r
      | O => let '(x, w) := DecodeRune s in (idx, x) :: range_go (idx + 1) (w - 1) r
      end
  end.

(** The pairs [(idx, x)] a [range] loop over [s] visits, in order. *)
Definition range_string (s : string) : list (Z * rune) := range_go 0 O s.

Definition byte_string (b : Z) : string :=
  String (ascii_of_nat (Z.to_nat b)) EmptyString.

(** [string(x)] for a rune [x]. *)
Definition string_of_rune (x : rune) : string :=
  if (0 <=? x) && (x <? 128) then byte_string x
  else if (128 <=? x) && (x <? 2048) then
    byte_string (192 + x / 64) ++ byte_string (128 + x mod 64)
  else if (x <? 0) || (1114111 <? x) || ((55296 <=? x) && (x <=? 57343)) then
    byte_string 239 ++ byte_string 191 ++ byte_string 189
  else if x <? 65536 then
    byte_string (224 + x / 4096) ++ byte_string (128 + (x / 64) mod 64)
      ++ byte_string (128 + x mod 64)
  else
    byte_string (240 + x / 262144) ++ byte_string (128 + (x / 4096) mod 64)
      ++ byte_string (128 + (x / 64) mod 64) ++ byte_string (128 + x mod 64).

(** A rune literal such as ['.'] is the code of its byte. *)
Definition rune_of (c : ascii) : rune := Z.of_nat (nat_of_ascii c).

(** ** Values

    Modelled from the spec: the value tree is an external collaborator (its
    declaration is not among the source files).  The spec gives it as a
    tagged value with variant inspection, field lookup by name with a presence
    test, indexed element access and array length; the fields are the ones
    [jsonpath.go] reads and writes ([o], [a], [s], [t]). *)

Inductive Type_ : Set :=
| TypeNull | TypeObject | TypeArray | TypeString | TypeNumber
| TypeTrue | TypeFalse | typeRawString.

Definition Type_eqb (x y : Type_) : bool :=
  match x, y with
  | TypeNull, TypeNull | TypeObject, TypeObject | TypeArray, TypeArray
  | TypeString, TypeString | TypeNumber, TypeNumber | TypeTrue, TypeTrue
  | TypeFalse, TypeFalse | typeRawString, typeRawString => true
  | _, _ => false
  end.

(** [o] holds the fields of an object in order, [a] the element pointers of
    an array (an element may be nil), [s] the text of a string or number. *)
#[warnings="-register-all"]
Inductive Value : Type := mkValue {
  o : list (string * Value);
  a : list (option Value);
  s : string;
  t : Type_
}.

(** Modelled from the spec: field lookup by name; the first field named
    [key], nil when there is none. *)
Fixpoint Object_Get (kvs : list (string * Value)) (key : string) : option Value :=
  match kvs with
  | [] => None
  | (k, v) :: rest => if String.eqb k key then Some v else Object_Get rest key
  end.

(** Modelled from the spec: [v.Get(key)], nil-safe: a field of an object,
    the element at a decimal index of an array, nil otherwise. *)
Definition Value_Get (v : option Value) (key : string) : option Value :=
  match v with
  | None => None
  | Some x =>
      match x.(t) with
      | TypeObject => Object_Get x.(o) key
      | TypeArray =>
          match strconv.Atoi key with
          | (n, None) =>
              if (n <? 0) || (Z.of_nat (List.length x.(a)) <=? n) then None
              else nth (Z.to_nat n) x.(a) None
          | (_, Some _) => None
          end
      | _ => None
      end
  end.

(** Modelled from the spec: the presence test [v.Exists(key)]. *)
Definition Value_Exists (v : option Value) (key : string) : bool :=
  match Value_Get v key with
  | Some _ => true
  | None => false
  end.

(** Modelled from the spec: variant inspection [v.Type()]; a raw string
    reports as a string, a nil receiver panics on the field read. *)
Definition Value_Type (v : option Value) : result Type_ :=
  match v with
  | None => Panic NilDereference
  | Some x => Ok (match x.(t) with typeRawString => TypeString | k => k end)
  end.

(** [&Value{a: elems, t: TypeArray}]. *)
Definition new_array (elems : list (option Value)) : option Value :=
  Some (mkValue [] elems "" TypeArray).

(** [&Value{s: text, t: TypeString}]. *)
Definition new_string (text : string) : option Value :=
  Some (mkValue [] [] text TypeString).

(** [xs[i]] on a slice of pointers. *)
Definition index_at {A : Type} (xs : list A) (i : Z) : result A :=
  if (i <? 0) || (Z.of_nat (List.length xs) <=? i) then Panic IndexOutOfRange
  else match nth_error xs (Z.to_nat i) with
       | Some x => Ok x
       | None => Panic IndexOutOfRange
       end.

(** [xs[lo:hi]] (capacity taken as the length). *)
Definition slice_at {A : Type} (xs : list A) (lo hi : Z) : result (list A) :=
  if (lo <? 0) || (hi <? lo) || (Z.of_nat (List.length xs) <? hi)
  then Panic IndexOutOfRange
  else Ok (firstn (Z.to_nat (hi - lo)) (skipn (Z.to_nat lo) xs)).

(** ** Accessors *)

Definition get_key (obj : option Value) (key : string)
  : result (option Value) :=
  match obj with
  | None => Err ErrGetFromNullObj
  | Some v =>
      if len key =? 0 then Ok obj
      else
        match v.(t) with
        | TypeObject =>
            if negb (Value_Exists obj key) then Err (ErrKeyNotFound key)
            else Ok (Value_Get obj key)
        | TypeArray =>
            Ok (new_array (map (fun e => Value_Get e key) v.(a)))
        | _ => Err (ErrNotMap key)
        end
  end.

Definition get_idx (obj : option Value) (idx : Z) : result (option Value) :=
  match obj with
  | None => Panic NilDereference
  | Some v =>
      match v.(t) with
      | TypeArray =>
          let length := Z.of_nat (List.length v.(a)) in
          if idx >=? 0 then
            if idx >=? length then Err (ErrIndexOutOfRange length idx)
            else index_at v.(a) idx
          else
            (* length + idx cannot overflow: 0 <= length and idx < 0 *)
            let _idx := length + idx in
            if _idx <? 0 then Err (ErrIndexOutOfRange length idx)
            else index_at v.(a) _idx
      | _ => Err ErrNotSlice
      end
  end.

(** [frm] and [to] are [interface{}] holding nil or an [int]. *)
Definition get_range (obj : option Value) (frm to : option Z)
  : result (option Value) :=
  match obj with
  | None => Panic NilDereference
  | Some v =>
      match v.(t) with
      | TypeArray =>
          let length := Z.of_nat (List.length v.(a)) in
          let frm := match frm with None => 0 | Some f => f end in
          let to := match to with None => length - 1 | Some x => x end in
          let _frm := if frm <? 0 then length + frm else frm in
          let _to := if to <? 0 then length + to + 1 else wrap_int (to + 1) in
          if (_frm <? 0) || (_frm >=? length) then Err (ErrFromOutOfRange length)
          else if (_to <? 0) || (_to >? length) then Err (ErrToOutOfRange length)
          else let* part := slice_at v.(a) _frm _to in Ok (new_array part)
      | _ => Err ErrNotSlice
      end
  end.

(** ** Loops *)

(** A [for ... range] loop whose body updates the state [st] or leaves the
    function (with an error or a panic). *)
Fixpoint for_each {S X : Type} (body : S -> X -> result S) (st : S) (xs : list X)
  : result S :=
  match xs with
  | [] => Ok st
  | x :: rest => let* st' := body st x in for_each body st' rest
  end.

(** [xs[len(xs)-1]]. *)
Definition last_at {A : Type} (xs : list A) : result A :=
  index_at xs (Z.of_nat (List.length xs) - 1).

(** [s[0] == c] on a string. *)
Definition first_byte_is (str : string) (c : ascii) : result bool :=
  match str with
  | EmptyString => Panic IndexOutOfRange
  | String d _ => Ok (Ascii.eqb d c)
  end.

Definition append {A : Type} (xs : list A) (x : A) : list A := xs ++ [x].

(** ** Tokenizer *)

Definition backslash_bracket : string := String "092" (String "]" EmptyString).

(** One iteration of the loop of [tokenize]; the state is [(tokens, token)]. *)
Definition tokenize_body (st : list string * string) (ix : Z * rune)
  : result (list string * string) :=
  let '(tokens, token) := st in
  let '(idx, x) := ix in
  let token := token ++ string_of_rune x in
  if (idx =? 0) then
    if String.eqb token "$" || String.eqb token "@"
    then Ok (append tokens token, EmptyString)
    else Err ErrShouldStartWithDollar
  else if String.eqb token "." then Ok (tokens, token)
  else if String.eqb token ".." then
    let* top := last_at tokens in
    let tokens := if negb (String.eqb top "*") then append tokens "*" else tokens in
    Ok (tokens, ".")
  else if strings.Contains token "[" then
    if (x =? rune_of "]") && negb (strings.HasSuffix token backslash_bracket) then
      let* dot := first_byte_is token "." in
      if dot then Ok (append tokens (slice_from token 1), EmptyString)
      else Ok (append tokens token, EmptyString)
    else Ok (tokens, token)
  else if x =? rune_of "." then
    let* dot := first_byte_is token "." in
    if dot then Ok (append tokens (slice token 1 (String.length token - 1)), ".")
    else Ok (append tokens (slice token 0 (String.length token - 1)), ".")
  else Ok (tokens, token).

(** The flush after the loop: a last [*] is appended unless the previous
    token is [*] already. *)
Definition tokenize_flush (tokens : list string) (token : string)
  : result (list string) :=
  if negb (String.eqb token "*") then Ok (append tokens token)
  else
    let* top := last_at tokens in
    if negb (String.eqb top "*") then Ok (append tokens token) else Ok tokens.

Definition tokenize (query : string) : result (list string) :=
  let* st := for_each tokenize_body ([], EmptyString) (range_string query) in
  let '(tokens, token) := st in
  if len token >? 0 then
    let* dot := first_byte_is token "." in
    if dot then tokenize_flush tokens (slice_from token 1)
    else tokenize_flush tokens token
  else Ok tokens.

(** ** Step compiler *)

(** The dynamic payload [args interface{}] of a step. *)
Inductive args_t : Type :=
| ArgsNil                               (* nil *)
| ArgsStrings (keys : list string)      (* []string *)
| ArgsInts (idxs : list Z)              (* []int *)
| ArgsRange (frm to : option Z)         (* [2]interface{}, each nil or int *)
| ArgsString (text : string).           (* string *)

(** The four results [(op, key, args, err)] of [parse_token]; all four are
    returned together, [err] being nil or not. *)
Record parsed : Type := mkParsed {
  p_op : string;
  p_key : string;
  p_args : args_t;
  p_err : option error
}.

Definition is_invalid_rune (v : rune) : bool :=
  ((v <? rune_of "0") || (v >? rune_of "9"))
  && ((v <? rune_of "a") || (v >? rune_of "z"))
  && ((v <? rune_of "A") && (v >? rune_of "Z"))
  && negb (v =? rune_of ",") && negb (v =? rune_of "@")
  && negb (v =? rune_of "$") && negb (v =? rune_of ".").

Definition rune_in (v : rune) (cs : list ascii) : bool :=
  existsb (fun c => v =? rune_of c) cs.

(** The scan of [parse_bracket_token]; the state is
    [(hasKey, hasOp, hasLogic)] and [None] is the early return. *)
Fixpoint scan_bracket (st : bool * bool * bool) (vs : list (Z * rune))
  : option (bool * bool * bool) :=
  match vs with
  | [] => Some st
  | (_, v) :: rest =>
      let '(hasKey, hasOp, hasLogic) := st in
      if v =? rune_of "'" then scan_bracket (true, hasOp, hasLogic) rest
      else if rune_in v ["="; "!"; "<"; ">"; "~"]%char
           then scan_bracket (hasKey, true, hasLogic) rest
      else if rune_in v ["&"; "|"]%char
           then scan_bracket (hasKey, hasOp, true) rest
      else if is_invalid_rune v then None
      else scan_bracket st rest
  end.

(** The index loop of [parse_bracket_token]: the list read, or the error of
    the first piece that is no integer. *)
Fixpoint atoi_all (res : list Z) (xs : list string) : list Z + error :=
  match xs with
  | [] => inl res
  | x :: rest =>
      match strconv.Atoi (strings.Trim x " ") with
      | (i, None) => atoi_all (append res i) rest
      | (_, Some err) => inr err
      end
  end.

(** [(op, args, err)] of [parse_bracket_token]. *)
Definition parse_bracket_token (token : string) : string * args_t * option error :=
  match scan_bracket (false, false, false) (range_string token) with
  | None => (EmptyString, ArgsString EmptyString, Some (ErrInvalidToken token))
  | Some (hasKey, hasOp, hasLogic) =>
      if hasLogic || hasOp then
        ("filter", ArgsString (strings.Trim token " "), None)
      else if hasKey then
        let strs := strings.Split token "," in
        ("key",
         ArgsStrings (map (fun str => strings.Trim (strings.Trim str " ") "'") strs),
         None)
      else
        match atoi_all [] (strings.Split token ",") with
        | inl res => ("idx", ArgsInts res, None)
        | inr err => (EmptyString, ArgsNil, Some err)
        end
  end.

(** One side of a slice: the value kept in [frm] or [to], and the [err]
    left behind by the assignment. *)
Definition parse_bound (text : string) : option Z * option error :=
  match strconv.Atoi (strings.Trim text " ") with
  | (n, None) => (Some n, None)
  | (_, Some err) =>
      (None, if String.eqb (strings.Trim text " ") EmptyString then None else Some err)
  end.

Definition parse_token (token : string) : parsed :=
  if String.eqb token "$" then mkParsed "root" "$" ArgsNil None
  else if String.eqb token "*" then mkParsed "scan" "*" ArgsNil None
  else
    let bracket_idx := strings.Index token "[" in
    if bracket_idx <? 0 then mkParsed "key" token ArgsNil None
    else
      let key := slice token 0 (Z.to_nat bracket_idx) in
      let tail := slice_from token (Z.to_nat bracket_idx) in
      if len tail <? 3 then mkParsed EmptyString key ArgsNil (Some (ErrTailLen tail))
      else
        let tail := slice tail 1 (String.length tail - 1) in
        if strings.Contains tail "?" then
          if strings.HasPrefix tail "?(" && strings.HasSuffix tail ")"
          then mkParsed "filter" key
                 (ArgsString (strings.Trim (slice tail 2 (String.length tail - 1)) " "))
                 None
          else mkParsed "filter" key ArgsNil None
        else if strings.Contains tail ":" then
          match strings.Split tail ":" with
          | [t0; t1] =>
              let '(frm, _) := parse_bound t0 in
              let '(to, err) := parse_bound t1 in
              mkParsed "range" key (ArgsRange frm to) err
          | _ => mkParsed "range" key ArgsNil (Some ErrOnlyOneRange)
          end
        else if String.eqb tail "*" then mkParsed "range" key (ArgsRange None None) None
        else
          let '(op, args, err) := parse_bracket_token tail in
          mkParsed op key args err.

Record step : Type := mkStep {
  op : string;
  key : string;
  args : args_t
}.

Record Compiled : Type := mkCompiled {
  path : string;
  steps : list step
}.

Fixpoint compile_steps (tokens : list string) : result (list step) :=
  match tokens with
  | [] => Ok []
  | token :: rest =>
      let r := parse_token token in
      match r.(p_err) with
      | Some e => Err e
      | None =>
          let* more := compile_steps rest in
          Ok (mkStep r.(p_op) r.(p_key) r.(p_args) :: more)
      end
  end.

Definition Compile (jpath : string) : result Compiled :=
  let* tokens := tokenize jpath in
  let* head := index_at tokens 0 in
  if negb (String.eqb head "@") && negb (String.eqb head "$") then Err ErrFrontOfPath
  else
    let tokens := tl tokens in
    let* steps := compile_steps tokens in
    Ok (mkCompiled jpath steps).

(** ** Filters *)

(** What [types.Eval] hands back besides its error: whether the expression
    denotes a value, and [Value.String()] of its constant ([None] when the
    expression is no constant and [Value] is nil). *)
Record TypeAndValue : Type := mkTypeAndValue {
  IsValue : bool;
  Value_String : option string
}.

(** The Go standard library behind the filters: [regexp], [strconv.ParseFloat]
    and [go/types].  They are no part of the repository; the walker is
    parametric in them. *)
Record GoLib : Type := mkGoLib {
  Regexp : Type;
  regexp_Compile : string -> option Regexp;        (* None: a non-nil error *)
  MatchString : Regexp -> string -> bool;
  ParseFloat_ok : string -> bool;                  (* the error is nil *)
  types_Eval : string -> option TypeAndValue       (* None: a non-nil error *)
}.

(** The state of the scan of [parse_filter]. *)
Record filter_scan : Type := mkScan {
  f_lp : string;
  f_op : string;
  f_rp : string;
  f_tmp : string;
  f_stage : Z;
  f_embrace : bool
}.

(** [switch stage { case 0: lp = tmp; case 1: op = tmp; case 2: rp = tmp }]. *)
Definition store_tmp (st : filter_scan) : filter_scan :=
  if st.(f_stage) =? 0 then
    mkScan st.(f_tmp) st.(f_op) st.(f_rp) st.(f_tmp) st.(f_stage) st.(f_embrace)
  else if st.(f_stage) =? 1 then
    mkScan st.(f_lp) st.(f_tmp) st.(f_rp) st.(f_tmp) st.(f_stage) st.(f_embrace)
  else if st.(f_stage) =? 2 then
    mkScan st.(f_lp) st.(f_op) st.(f_tmp) st.(f_tmp) st.(f_stage) st.(f_embrace)
  else st.

Definition set_tmp (st : filter_scan) (tmp : string) : filter_scan :=
  mkScan st.(f_lp) st.(f_op) st.(f_rp) tmp st.(f_stage) st.(f_embrace).

Definition parse_filter_body (st : filter_scan) (ic : Z * rune) : result filter_scan :=
  let '(idx, c) := ic in
  if c =? rune_of "'" then
    if negb st.(f_embrace) then
      Ok (mkScan st.(f_lp) st.(f_op) st.(f_rp) st.(f_tmp) st.(f_stage) true)
    else Ok (set_tmp (store_tmp st) EmptyString)
  else if c =? rune_of " " then
    if st.(f_embrace) then Ok (set_tmp st (st.(f_tmp) ++ string_of_rune c))
    else
      let st := set_tmp (store_tmp st) EmptyString in
      let stage := st.(f_stage) + 1 in
      if stage >? 2 then Err (ErrInvalidChar idx)
      else Ok (mkScan st.(f_lp) st.(f_op) st.(f_rp) st.(f_tmp) stage st.(f_embrace))
  else Ok (set_tmp st (st.(f_tmp) ++ string_of_rune c)).

(** [(lp, op, rp)] of [parse_filter], or its error. *)
Definition parse_filter (filter : string) : result (string * string * string) :=
  let* st := for_each parse_filter_body
               (mkScan EmptyString EmptyString EmptyString EmptyString 0 false)
               (range_string filter) in
  if negb (String.eqb st.(f_tmp) EmptyString) then
    if st.(f_stage) =? 0 then Ok (st.(f_tmp), "exists", st.(f_rp))
    else if st.(f_stage) =? 1 then Ok (st.(f_lp), st.(f_tmp), st.(f_rp))
    else if st.(f_stage) =? 2 then Ok (st.(f_lp), st.(f_op), st.(f_tmp))
    else Ok (st.(f_lp), st.(f_op), st.(f_rp))
  else Ok (st.(f_lp), st.(f_op), st.(f_rp)).

(** [args.([]int)], [args.([]string)], [args.(string)]: unchecked type
    assertions panic on any other dynamic type. *)
Definition assert_ints (x : args_t) : result (list Z) :=
  match x with ArgsInts l => Ok l | _ => Panic InterfaceConversion end.
Definition assert_strings (x : args_t) : result (list string) :=
  match x with ArgsStrings l => Ok l | _ => Panic InterfaceConversion end.
Definition assert_string (x : args_t) : result string :=
  match x with ArgsString f => Ok f | _ => Panic InterfaceConversion end.

Definition filter_path_body (xobj : option Value) (tok : string)
  : result (option Value) :=
  let r := parse_token tok in
  if String.eqb r.(p_op) "key" then get_key xobj r.(p_key)
  else if String.eqb r.(p_op) "idx" then
    let* idxs := assert_ints r.(p_args) in
    if negb (Z.of_nat (List.length idxs) =? 1) then Err ErrMultipleIndex
    else
      let* xobj := get_key xobj r.(p_key) in
      let* i := index_at idxs 0 in
      get_idx xobj i
  else Err ErrNotSupported.

Definition filter_get_from_explicit_path (obj : option Value) (path : string)
  : result (option Value) :=
  let* steps := tokenize path in
  let* head := index_at steps 0 in
  if negb (String.eqb head "@") && negb (String.eqb head "$") then Err ErrFrontOfPath
  else for_each filter_path_body obj (tl steps).

Definition get_lp_v (obj root : option Value) (lp : string) : result (option Value) :=
  if strings.HasPrefix lp "@." then filter_get_from_explicit_path obj lp
  else if strings.HasPrefix lp "$." then filter_get_from_explicit_path root lp
  else Ok (new_string lp).

(** The pointer a caller is left with when it does not look at the error:
    nil beside a non-nil error. *)
Definition ignore_err (r : result (option Value)) : result (option Value) :=
  match r with
  | Err _ => Ok None
  | _ => r
  end.

(** [v.s] through a pointer. *)
Definition field_s (v : option Value) : result string :=
  match v with
  | None => Panic NilDereference
  | Some x => Ok x.(s)
  end.

Definition quote : string := String "034" EmptyString.

(** How one iteration of the loop of [Lookup] ends when it raises no error:
    the loop goes on with a new [obj], or [Lookup] returns on the spot. *)
Inductive flow : Type :=
| Next (obj : option Value)
| Return (res : option Value).

Section WithGoLib.

Variable lib : GoLib.

(** The pointer to the compiled pattern is [Some pat] beside a nil error. *)
Definition regFilterCompile (rule : string) : result (option (Regexp lib)) :=
  let runes := map snd (range_string rule) in
  if Z.of_nat (List.length runes) <=? 2 then Err ErrEmptyRule
  else
    let* first := index_at runes 0 in
    let* last := last_at runes in
    if negb (first =? rune_of "/") || negb (last =? rune_of "/") then Err ErrRegSyntax
    else
      let* inner := slice_at runes 1 (Z.of_nat (List.length runes) - 1) in
      match regexp_Compile lib (String.concat EmptyString (map string_of_rune inner)) with
      | Some pat => Ok (Some pat)
      | None => Err ErrRegexpCompile
      end.

Definition eval_reg_filter (obj root : option Value) (lp : string)
  (pat : option (Regexp lib)) : result bool :=
  match pat with
  | None => Err ErrNilPat
  | Some pat =>
      let* lp_v := get_lp_v obj root lp in
      let* ty := Value_Type lp_v in
      match ty with
      | TypeString => let* text := field_s lp_v in Ok (MatchString lib pat text)
      | _ => Err ErrOnlyStringMatch
      end
  end.

Definition isNumber (v : option Value) : result bool :=
  let* ty := Value_Type v in
  match ty with
  | TypeNumber => Ok true
  | TypeString => let* text := field_s v in Ok (ParseFloat_ok lib text)
  | _ => Ok false
  end.

Definition is_cmp_op (op : string) : bool :=
  existsb (String.eqb op) ["<"; "<="; "=="; "!="; ">="; ">"].

Definition cmp_any (obj1 obj2 : option Value) (op : string) : result bool :=
  if negb (is_cmp_op op) then Err ErrBadOp
  else
    let* n1 := isNumber obj1 in
    let* both := (if n1 then isNumber obj2 else Ok false) in
    let* s1 := field_s obj1 in
    let* s2 := field_s obj2 in
    let exp :=
      if both then s1 ++ " " ++ op ++ " " ++ s2
      else quote ++ s1 ++ quote ++ " " ++ op ++ " " ++ quote ++ s2 ++ quote in
    match types_Eval lib exp with
    | None => Err ErrEval
    | Some res =>
        if negb res.(IsValue) then Err ErrNotBool
        else
          match res.(Value_String) with
          | None => Panic NilDereference
          | Some text =>
              if negb (String.eqb text "false") && negb (String.eqb text "true")
              then Err ErrNotBool
              else if String.eqb text "true" then Ok true
              else Ok false
          end
    end.

Definition eval_filter (obj root : option Value) (lp op rp : string) : result bool :=
  let* lp_v := ignore_err (get_lp_v obj root lp) in
  if String.eqb op "exists" then
    Ok (match lp_v with Some _ => true | None => false end)
  else if String.eqb op "=~" then Err ErrNotImplemented
  else
    let* rp_v := ignore_err (get_lp_v obj root rp) in
    cmp_any lp_v rp_v op.

(** The test one candidate goes through in [get_filtered]. *)
Definition filter_loop (test : option Value -> result bool)
  (res : list (option Value)) (tmp : option Value) : result (list (option Value)) :=
  let* ok := test tmp in
  if ok then Ok (append res tmp) else Ok res.

(** [(isArr, ret)] of [get_filtered], or its error. *)
Definition get_filtered (obj root : option Value) (filter : string)
  : result (bool * list (option Value)) :=
  let* (lp, op, rp) := parse_filter filter in
  match obj with
  | None => Panic NilDereference
  | Some v =>
      match v.(t) with
      | TypeArray =>
          if String.eqb op "=~" then
            let* pat := regFilterCompile rp in
            let* res := for_each
                          (filter_loop (fun tmp => eval_reg_filter tmp root lp pat))
                          [] v.(a) in
            Ok (true, res)
          else
            let* res := for_each
                          (filter_loop (fun tmp => eval_filter tmp root lp op rp))
                          [] v.(a) in
            Ok (true, res)
      | TypeObject =>
          if String.eqb op "=~" then
            let* pat := regFilterCompile rp in
            let* ok := eval_reg_filter obj root lp pat in
            Ok (false, if ok then [obj] else [])
          else
            let* ok := eval_filter obj root lp op rp in
            Ok (false, if ok then [obj] else [])
      | _ => Err ErrFilterType
      end
  end.

(** ** Tree walker *)

Definition with_key (obj : option Value) (st : step) : result (option Value) :=
  if len st.(key) >? 0 then get_key obj st.(key) else Ok obj.

Definition lookup_step (root obj : option Value) (st : step) : result flow :=
  if String.eqb st.(op) "key" then
    let* obj := with_key obj st in
    match st.(args) with
    | ArgsNil => Ok (Next obj)
    | _ =>
        let* names := assert_strings st.(args) in
        if Z.of_nat (List.length names) >? 1 then
          let* elems := for_each
                          (fun res x => let* tmp := get_key obj x in Ok (append res tmp))
                          [] names in
          Ok (Next (new_array elems))
        else if Z.of_nat (List.length names) =? 1 then
          let* x := index_at names 0 in
          let* obj := get_key obj x in
          Ok (Next obj)
        else Err ErrEmptyKeySlice
    end
  else if String.eqb st.(op) "idx" then
    let* obj := with_key obj st in
    let* idxs := assert_ints st.(args) in
    if Z.of_nat (List.length idxs) >? 1 then
      let* elems := for_each
                      (fun res x => let* tmp := get_idx obj x in Ok (append res tmp))
                      [] idxs in
      Ok (Next (new_array elems))
    else if Z.of_nat (List.length idxs) =? 1 then
      let* x := index_at idxs 0 in
      let* obj := get_idx obj x in
      Ok (Next obj)
    else Err ErrEmptyIndexSlice
  else if String.eqb st.(op) "range" then
    let* obj := with_key obj st in
    match st.(args) with
    | ArgsRange frm to =>
        let* obj := get_range obj frm to in
        Ok (Next obj)
    | _ => Err ErrRangeArgs
    end
  else if String.eqb st.(op) "filter" then
    let* obj := get_key obj st.(key) in
    let* filter := assert_string st.(args) in
    let* (isArr, ret) := get_filtered obj root filter in
    if isArr then Ok (Next (new_array ret))
    else if Z.of_nat (List.length ret) =? 0 then Ok (Return None)
    else
      let* obj := index_at ret 0 in
      Ok (Next obj)
  else Err ErrNotSupported.

(** The loop of [Lookup] from the value [obj] on. *)
Fixpoint lookup_steps (root obj : option Value) (sts : list step)
  : result (option Value) :=
  match sts with
  | [] => Ok obj
  | st :: rest =>
      let* f := lookup_step root obj st in
      match f with
      | Next obj' => lookup_steps root obj' rest
      | Return res => Ok res
      end
  end.

Definition Lookup (c : Compiled) (root : option Value) : result (option Value) :=
  lookup_steps root root c.(steps).

Definition JsonPathLookup (obj : option Value) (jpath : string)
  : result (option Value) :=
  let* c := Compile jpath in
  Lookup c obj.

End WithGoLib.

(** ** Sample documents

    Values as the parser builds them, and a Go library in which no regular
    expression compiles, no text parses as a float and no expression
    evaluates; the instances that use it never reach a library call. *)

Definition json_null : Value := mkValue [] [] EmptyString TypeNull.
Definition json_number (text : string) : Value := mkValue [] [] text TypeNumber.
Definition json_string (text : string) : Value := mkValue [] [] text TypeString.
Definition json_object (kvs : list (string * Value)) : Value :=
  mkValue kvs [] EmptyString TypeObject.
Definition json_array (elems : list Value) : Value :=
  mkValue [] (map Some elems) EmptyString TypeArray.

Definition no_golib : GoLib :=
  mkGoLib unit (fun _ => None) (fun _ _ => false) (fun _ => false) (fun _ => None).

Definition store_doc : Value :=
  json_object [("store", json_object [("author", json_string "Nigel Rees");
                                      ("price", json_number "8.95")])].


Definition nested_doc : Value := json_object [("a", json_object [("b", json_number "1")])].


(** Two operand texts that hold a quote character: the text of [pasted_left]
    is b, quote, space, less-than, space, quote, a; [pasted_right] is the same
    with a and c. *)
Definition pasted_left : string := "b" ++ quote ++ " < " ++ quote ++ "a".
Definition pasted_right : string := "a" ++ quote ++ " < " ++ quote ++ "c".

(** ** Vocabulary of the properties *)

(** A null as a caller meets it: the nil pointer or the JSON null value. *)
Definition is_null (p : option Value) : bool :=
  match p with
  | None => true
  | Some x => Type_eqb x.(t) TypeNull
  end.


(** Whether an object has a field named [k]. *)
Definition has_key (x : Value) (k : string) : bool :=
  existsb (fun kv => String.eqb (fst kv) k) x.(o).

(** The loop of [Lookup] over the first steps of a path: where it stands
    after them. *)
Fixpoint run_steps (lib : GoLib) (root obj : option Value) (sts : list step)
  : result flow :=
  match sts with
  | [] => Ok (Next obj)
  | st :: rest =>
      let* f := lookup_step lib root obj st in
      match f with
      | Next obj' => run_steps lib root obj' rest
      | Return res => Ok (Return res)
      end
  end.

(** Whether the predicate [(lp, op, rp)] holds of one candidate, as
    [get_filtered] tests it. *)
Definition filter_matches (lib : GoLib) (obj root : option Value) (lp op rp : string)
  : result bool :=
  if String.eqb op "=~" then
    let* pat := regFilterCompile lib rp in
    eval_reg_filter lib obj root lp pat
  else eval_filter lib obj root lp op rp.

(** ** Vocabulary of the further properties *)

Fixpoint all_chars (P : ascii -> bool) (text : string) : bool :=
  match text with
  | EmptyString => true
  | String c r => P c && all_chars P r
  end.

Definition is_ascii (c : ascii) : bool := (nat_of_ascii c <? 128)%nat.

(** A byte of a plain field name: ASCII, and neither a dot nor an opening
    bracket. *)
Definition plain_char (c : ascii) : bool :=
  is_ascii c && negb (Ascii.eqb c ".") && negb (Ascii.eqb c "[").

(** A plain field name: not empty, made of plain bytes, and neither of the
    two tokens [*] and [$] that the step compiler reads as operators. *)
Definition plain_name (n : string) : bool :=
  negb (String.eqb n EmptyString) && all_chars plain_char n
  && negb (String.eqb n "*") && negb (String.eqb n "$").

(** The text [.n1.n2...] of a chain of names. *)
Fixpoint dotted (names : list string) : string :=
  match names with
  | [] => EmptyString
  | n :: rest => "." ++ n ++ dotted rest
  end.

(** The step a bare name compiles to. *)
Definition key_step (n : string) : step := mkStep "key" n ArgsNil.

(** Field by field through nested objects: the value reached from [x] along
    [names], [None] when a value on the way is no object or lacks the field. *)
Fixpoint field_path (x : Value) (names : list string) : option Value :=
  match names with
  | [] => Some x
  | n :: rest =>
      match x.(t) with
      | TypeObject =>
          match Object_Get x.(o) n with
          | Some y => field_path y rest
          | None => None
          end
      | _ => None
      end
  end.

(** The position in an array of length [L] that the index [i] addresses. *)
Definition pick (L i : Z) : nat := Z.to_nat (if i <? 0 then L + i else i).

Definition books_doc : Value :=
  json_array
    [json_object [("title", json_string "Sayings"); ("price", json_number "8.95")];
     json_object [("title", json_string "Moby Dick"); ("isbn", json_string "0-553");
                  ("price", json_number "8.99")];
     json_object [("title", json_string "Rings"); ("isbn", json_string "0-395");
                  ("price", json_number "22.99")]].

Definition has_isbn (e : option Value) : bool :=
  match Value_Get e "isbn" with
  | Some _ => true
  | None => false
  end.

(** A byte of an unquoted field of a predicate: ASCII, neither a space nor a
    single quote. *)
Definition field_char (c : ascii) : bool :=
  is_ascii c && negb (Ascii.eqb c " ") && negb (Ascii.eqb c "'").

(** A byte of the inside of a quoted operand: ASCII and no single quote. *)
Definition quoted_char (c : ascii) : bool :=
  is_ascii c && negb (Ascii.eqb c "'").

(** The payload a step carries fits its operator: a key step has no
    arguments or a non-empty key list, an index step a non-empty index list,
    a slice step a pair of bounds, a filter step a predicate text or nothing,
    and the root and scan steps have no arguments. *)
Definition shaped (st : step) : bool :=
  if String.eqb st.(op) "key" then
    match st.(args) with
    | ArgsNil | ArgsStrings (_ :: _) => true
    | _ => false
    end
  else if String.eqb st.(op) "idx" then
    match st.(args) with
    | ArgsInts (_ :: _) => true
    | _ => false
    end
  else if String.eqb st.(op) "range" then
    match st.(args) with
    | ArgsRange _ _ => true
    | _ => false
    end
  else if String.eqb st.(op) "filter" then
    match st.(args) with
    | ArgsNil | ArgsString _ => true
    | _ => false
    end
  else if String.eqb st.(op) "scan" || String.eqb st.(op) "root" then
    match st.(args) with
    | ArgsNil => true
    | _ => false
    end
  else false.

(** The three errors [Lookup] raises about the payload of a step itself. *)
Definition structural (e : error) : bool :=
  match e with
  | ErrEmptyKeySlice | ErrEmptyIndexSlice | ErrRangeArgs => true
  | _ => false
  end.

(** A call that does not end in a structural error. *)
Definition unstructural {A : Type} (r : result A) : Prop :=
  match r with
  | Err e => structural e = false
  | _ => True
  end.

(** A byte of a slice bound as written: neither of the two marks [?] and
    [:] that [parse_token] looks for inside the brackets. *)
Definition bound_char (c : ascii) : bool :=
  negb (Ascii.eqb c "?") && negb (Ascii.eqb c ":").

(** The token [key[t0:t1]]. *)
Definition slice_token (key t0 t1 : string) : string :=
  key ++ "[" ++ t0 ++ ":" ++ t1 ++ "]".

(** ** The raw lookup *)

(** What [JsonPathLookupRaw] puts in its [interface{}]: the fields of an
    object, the elements of an array, the text of a string, the float of a
    number, a boolean, or nil. *)
Inductive raw (F : Type) : Type :=
| RawObject (fields : list (string * Value))
| RawArray (elems : list (option Value))
| RawString (text : string)
| RawNumber (f : F)
| RawBool (b : bool)
| RawNil.
Arguments RawObject {F} fields.
Arguments RawArray {F} elems.
Arguments RawString {F} text.
Arguments RawNumber {F} f.
Arguments RawBool {F} b.
Arguments RawNil {F}.

Section Raw.

Variable lib : GoLib.

(** [fastfloat.ParseBestEffort] and its floats; the package is no part of
    the file, the lookup is parametric in it. *)
Variable F : Type.
Variable ParseBestEffort : string -> F.

Definition JsonPathLookupRaw (obj : option Value) (jpath : string) : result (raw F) :=
  let* c := Compile jpath in
  let* v := Lookup lib c obj in
  match v with
  | None => Panic NilDereference
  | Some x =>
      match x.(t) with
      | TypeObject => Ok (RawObject x.(o))
      | TypeArray => Ok (RawArray x.(a))
      | TypeString => Ok (RawString x.(s))
      | typeRawString => Ok (RawString x.(s))
      | TypeNumber => Ok (RawNumber (ParseBestEffort x.(s)))
      | TypeTrue => Ok (RawBool true)
      | TypeFalse => Ok (RawBool false)
      | TypeNull => Ok RawNil
      end
  end.

End Raw.

(** * Properties *)

(** ** The model on the cases of the test file *)

Example tokenize_cases :
  map tokenize
    ["$..author"; "$.store.*"; "$.store..price"; "$.store.book[*].author";
     "$..book[2]"; "$..book[?(@.price <= $.expensive)]"; "$..*"; "$....author"]
  = [Ok ["$"; "*"; "author"]; Ok ["$"; "store"; "*"]; Ok ["$"; "store"; "*"; "price"];
     Ok ["$"; "store"; "book[*]"; "author"]; Ok ["$"; "*"; "book[2]"];
     Ok ["$"; "*"; "book[?(@.price <= $.expensive)]"]; Ok ["$"; "*"];
     Ok ["$"; "*"; "author"]].
Proof. vm_compute. reflexivity. Qed.

Example tokenize_escaped_bracket :
  tokenize ("$..book[?(@.author =~ /.*REES" ++ backslash_bracket ++ "/i)]")
  = Ok ["$"; "*"; "book[?(@.author =~ /.*REES" ++ backslash_bracket ++ "/i)]"].
Proof. vm_compute. reflexivity. Qed.

Example parse_token_cases :
  map parse_token
    ["$"; "store"; "book[-1]"; "book[0,1]"; "[0]"; "book[1:-1]"; "book[*]"; "book[-2:]";
     "book[?( @.isbn      )]"; "book[?(@.price < 10)]"; "*"]
  = [mkParsed "root" "$" ArgsNil None;
     mkParsed "key" "store" ArgsNil None;
     mkParsed "idx" "book" (ArgsInts [-1]) None;
     mkParsed "idx" "book" (ArgsInts [0; 1]) None;
     mkParsed "idx" EmptyString (ArgsInts [0]) None;
     mkParsed "range" "book" (ArgsRange (Some 1) (Some (-1))) None;
     mkParsed "range" "book" (ArgsRange None None) None;
     mkParsed "range" "book" (ArgsRange (Some (-2)) None) None;
     mkParsed "filter" "book" (ArgsString "@.isbn") None;
     mkParsed "filter" "book" (ArgsString "@.price < 10") None;
     mkParsed "scan" "*" ArgsNil None].
Proof. vm_compute. reflexivity. Qed.

Example parse_filter_cases :
  map parse_filter
    ["@.isbn"; "@.price < 10"; "@.author =~ /.*REES/i"; "@.author == 'Nigel Rees'"]
  = [Ok ("@.isbn", "exists", EmptyString); Ok ("@.price", "<", "10");
     Ok ("@.author", "=~", "/.*REES/i"); Ok ("@.author", "==", "Nigel Rees")].
Proof. vm_compute. reflexivity. Qed.

Example get_range_cases :
  get_range (Some (json_array (map json_number ["1"; "2"; "3"; "4"; "5"]))) (Some 3) (Some (-1))
  = Ok (Some (json_array (map json_number ["4"; "5"])))
  /\ get_range (Some (json_array (map json_number ["1"; "2"; "3"; "4"; "5"]))) (Some (-2)) None
     = Ok (Some (json_array (map json_number ["4"; "5"])))
  /\ get_range (Some (json_number "2")) (Some 0) (Some 1) = Err ErrNotSlice.
Proof. repeat split; vm_compute; reflexivity. Qed.

Example lookup_nested_array :
  JsonPathLookup no_golib
    (Some (json_array [json_array [json_object [("test", json_number "1.1")];
                                   json_object [("test", json_number "2.1")]];
                       json_array [json_object [("test", json_number "3.1")]]]))
    "$[0].[0].test"
  = Ok (Some (json_number "1.1")).
Proof. vm_compute. reflexivity. Qed.

(** ** Indexing *)

Lemma index_at_in_range {A : Type} (xs : list A) (i : Z) (d : A) :
  0 <= i < Z.of_nat (List.length xs) ->
  index_at xs i = Ok (nth (Z.to_nat i) xs d).
Proof.
  intros Hi. unfold index_at.
  destruct (i <? 0) eqn:Hneg; [apply Z.ltb_lt in Hneg; lia|].
  destruct (Z.of_nat (List.length xs) <=? i) eqn:Hbig; [apply Z.leb_le in Hbig; lia|].
  simpl. rewrite (nth_error_nth' xs d) by lia. reflexivity.
Qed.

Lemma get_idx_nonneg (v : Value) (i : Z) :
  v.(t) = TypeArray -> 0 <= i < Z.of_nat (List.length v.(a)) ->
  get_idx (Some v) i = Ok (nth (Z.to_nat i) v.(a) None).
Proof.
  intros Ht Hi. unfold get_idx. rewrite Ht.
  destruct (i >=? 0) eqn:H0; [|rewrite Z.geb_leb in H0; apply Z.leb_gt in H0; lia].
  destruct (i >=? Z.of_nat (List.length v.(a))) eqn:H1.
  - rewrite Z.geb_leb in H1. apply Z.leb_le in H1. lia.
  - apply index_at_in_range. exact Hi.
Qed.

Lemma get_idx_negative (v : Value) (i : Z) :
  v.(t) = TypeArray -> i < 0 -> 0 <= Z.of_nat (List.length v.(a)) + i ->
  get_idx (Some v) i = Ok (nth (Z.to_nat (Z.of_nat (List.length v.(a)) + i)) v.(a) None).
Proof.
  intros Ht Hneg Hi. unfold get_idx. rewrite Ht.
  destruct (i >=? 0) eqn:H0; [rewrite Z.geb_leb in H0; apply Z.leb_le in H0; lia|].
  destruct (Z.of_nat (List.length v.(a)) + i <? 0) eqn:H1; [apply Z.ltb_lt in H1; lia|].
  apply index_at_in_range. lia.
Qed.

Lemma get_idx_too_large (v : Value) (i : Z) :
  v.(t) = TypeArray -> Z.of_nat (List.length v.(a)) <= i ->
  get_idx (Some v) i = Err (ErrIndexOutOfRange (Z.of_nat (List.length v.(a))) i).
Proof.
  intros Ht Hi. unfold get_idx. rewrite Ht.
  destruct (i >=? 0) eqn:H0; [|rewrite Z.geb_leb in H0; apply Z.leb_gt in H0; lia].
  destruct (i >=? Z.of_nat (List.length v.(a))) eqn:H1; [reflexivity|].
  rewrite Z.geb_leb in H1. apply Z.leb_gt in H1. lia.
Qed.

Lemma get_idx_too_small (v : Value) (i : Z) :
  v.(t) = TypeArray -> Z.of_nat (List.length v.(a)) + i < 0 ->
  get_idx (Some v) i = Err (ErrIndexOutOfRange (Z.of_nat (List.length v.(a))) i).
Proof.
  intros Ht Hi. unfold get_idx. rewrite Ht.
  destruct (i >=? 0) eqn:H0; [rewrite Z.geb_leb in H0; apply Z.leb_le in H0; lia|].
  destruct (Z.of_nat (List.length v.(a)) + i <? 0) eqn:H1; [reflexivity|].
  apply Z.ltb_ge in H1. lia.
Qed.

(** C7: on an array of length [L], index -1 returns what index [L-1] returns
    and index [-L] what index 0 returns (for a non-empty array: the last and
    the first element); index [-(L+1)] and every index from [L] on fail with
    the index-out-of-range error. *)
Theorem get_idx_negative_index (v : Value) :
  v.(t) = TypeArray ->
  let L := Z.of_nat (List.length v.(a)) in
  get_idx (Some v) (-1) = get_idx (Some v) (L - 1)
  /\ get_idx (Some v) (- L) = get_idx (Some v) 0
  /\ (1 <= L ->
      get_idx (Some v) (-1) = Ok (nth (Z.to_nat (L - 1)) v.(a) None)
      /\ get_idx (Some v) (- L) = Ok (nth 0 v.(a) None))
  /\ get_idx (Some v) (- (L + 1)) = Err (ErrIndexOutOfRange L (- (L + 1)))
  /\ (forall i, L <= i -> get_idx (Some v) i = Err (ErrIndexOutOfRange L i)).
Proof.
  intros Ht L.
  assert (Hlast : 1 <= L -> get_idx (Some v) (-1) = Ok (nth (Z.to_nat (L - 1)) v.(a) None)).
  { intros HL. rewrite get_idx_negative by (auto; fold L; lia).
    fold L. replace (L + -1) with (L - 1) by lia. reflexivity. }
  assert (Hfirst : 1 <= L -> get_idx (Some v) (- L) = Ok (nth 0 v.(a) None)).
  { intros HL. rewrite get_idx_negative by (auto; fold L; lia).
    fold L. replace (L + - L) with 0 by lia. reflexivity. }
  repeat split.
  - destruct (Z.eq_dec L 0) as [H0 | H0].
    + rewrite H0. reflexivity.
    + rewrite Hlast by lia. symmetry. apply get_idx_nonneg; [exact Ht | fold L; lia].
  - destruct (Z.eq_dec L 0) as [H0 | H0].
    + rewrite H0. reflexivity.
    + rewrite Hfirst by lia. symmetry.
      rewrite get_idx_nonneg by (auto; fold L; lia). reflexivity.
  - apply Hlast. assumption.
  - apply Hfirst. assumption.
  - apply get_idx_too_small; [exact Ht | fold L; lia].
  - intros i Hi. apply get_idx_too_large; [exact Ht | exact Hi].
Qed.

Lemma get_idx_negative_index_witness :
  (json_array [json_number "1"; json_number "2"; json_number "3"; json_number "4"]).(t)
    = TypeArray
  /\ get_idx (Some (json_array [json_number "1"; json_number "2"; json_number "3";
                                json_number "4"])) (-1)
     = Ok (Some (json_number "4"))
  /\ get_idx (Some (json_array [json_number "1"; json_number "2"; json_number "3";
                                json_number "4"])) (-5)
     = Err (ErrIndexOutOfRange 4 (-5)).
Proof.
  pose proof (get_idx_negative_index
                (json_array [json_number "1"; json_number "2"; json_number "3";
                             json_number "4"]) eq_refl) as H.
  cbv zeta in H. destruct H as (_ & _ & Hne & Hlow & _).
  split; [reflexivity|]. split.
  - destruct Hne as [Hlast _]; [simpl; lia|]. exact Hlast.
  - exact Hlow.
Defined.

(** ** Slices *)

Lemma wrap_int_in_range (z : Z) : int_min <= z <= int_max -> wrap_int z = z.
Proof.
  unfold wrap_int, int_min, int_max. intros Hz.
  rewrite Z.mod_small by lia. lia.
Qed.

Lemma slice_at_whole {A : Type} (xs : list A) :
  slice_at xs 0 (Z.of_nat (List.length xs)) = Ok xs.
Proof.
  unfold slice_at.
  replace (0 <? 0) with false by reflexivity.
  destruct (Z.of_nat (List.length xs) <? 0) eqn:H1; [apply Z.ltb_lt in H1; lia|].
  rewrite Z.ltb_irrefl. simpl.
  rewrite Z.sub_0_r, Nat2Z.id, firstn_all. reflexivity.
Qed.

(** C4, as the code has it: with both bounds unspecified, [get_range] yields
    the whole array when the array is not empty, and fails with the
    from-out-of-range error when the array is empty. *)
Theorem get_range_default_bounds (v : Value) :
  v.(t) = TypeArray ->
  Z.of_nat (List.length v.(a)) <= int_max ->
  (v.(a) <> [] -> get_range (Some v) None None = Ok (new_array v.(a)))
  /\ (v.(a) = [] -> get_range (Some v) None None = Err (ErrFromOutOfRange 0)).
Proof.
  intros Ht Hlen. unfold get_range. rewrite Ht. split.
  - intros Hne.
    assert (HL : 1 <= Z.of_nat (List.length v.(a))).
    { destruct v.(a); [contradiction | simpl; lia]. }
    set (L := Z.of_nat (List.length v.(a))) in *.
    replace (0 <? 0) with false by reflexivity.
    destruct (L - 1 <? 0) eqn:H1; [apply Z.ltb_lt in H1; lia|].
    replace (L - 1 + 1) with L by lia.
    rewrite wrap_int_in_range by (unfold int_min, int_max in *; lia).
    destruct (0 >=? L) eqn:H2; [rewrite Z.geb_leb in H2; apply Z.leb_le in H2; lia|].
    destruct (L <? 0) eqn:H3; [apply Z.ltb_lt in H3; lia|].
    destruct (L >? L) eqn:H4; [rewrite Z.gtb_ltb in H4; apply Z.ltb_lt in H4; lia|].
    simpl. subst L. rewrite slice_at_whole. reflexivity.
  - intros Hnil. rewrite Hnil. reflexivity.
Qed.

Lemma get_range_default_bounds_witness :
  (json_array [json_number "1"; json_number "2"]).(t) = TypeArray
  /\ get_range (Some (json_array [json_number "1"; json_number "2"])) None None
     = Ok (Some (json_array [json_number "1"; json_number "2"])).
Proof.
  split; [reflexivity|].
  apply (get_range_default_bounds (json_array [json_number "1"; json_number "2"])).
  - reflexivity.
  - vm_compute. discriminate.
  - simpl. discriminate.
Defined.

(** C4 as stated fails on the empty array: [[*]] and [[:]] compile to a slice
    with both bounds unspecified, and the slice of an empty array is an
    error. *)
Lemma get_range_empty_array_fails :
  Compile "$[*]" = Ok (mkCompiled "$[*]" [mkStep "range" EmptyString (ArgsRange None None)])
  /\ Compile "$[:]" = Ok (mkCompiled "$[:]" [mkStep "range" EmptyString (ArgsRange None None)])
  /\ get_range (Some (json_array [])) None None = Err (ErrFromOutOfRange 0)
  /\ (forall lib,
        JsonPathLookup lib (Some (json_array [])) "$[*]" = Err (ErrFromOutOfRange 0)).
Proof.
  repeat split; try intros lib; vm_compute; reflexivity.
Qed.

(** ** Key broadcast *)

Lemma Object_Get_none (kvs : list (string * Value)) (k : string) :
  Object_Get kvs k = None <-> existsb (fun kv => String.eqb (fst kv) k) kvs = false.
Proof.
  induction kvs as [| [k0 v0] rest IH]; simpl.
  - tauto.
  - destruct (String.eqb k0 k); simpl.
    + split; discriminate.
    + exact IH.
Qed.

Lemma len_nonempty (k : string) : k <> EmptyString -> (len k =? 0) = false.
Proof.
  intros Hk. destruct k as [| c r]; [contradiction|].
  unfold len. simpl String.length. apply Z.eqb_neq. lia.
Qed.

(** C8, as the code has it: resolving a non-empty key [k] against an array
    never fails; the result is a new array of the same length; where element
    [i] is an object, slot [i] holds what the object stores under [k], and is
    the nil pointer exactly when the object has no field [k]. *)
Theorem get_key_broadcast (v : Value) (k : string) :
  v.(t) = TypeArray -> k <> EmptyString ->
  exists res,
    get_key (Some v) k = Ok (Some res)
    /\ res.(t) = TypeArray
    /\ List.length res.(a) = List.length v.(a)
    /\ forall i x, nth_error v.(a) i = Some (Some x) -> x.(t) = TypeObject ->
         nth_error res.(a) i = Some (Object_Get x.(o) k)
         /\ (nth_error res.(a) i = Some None <-> has_key x k = false).
Proof.
  intros Ht Hk.
  exists (mkValue [] (map (fun e => Value_Get e k) v.(a)) EmptyString TypeArray).
  split.
  { unfold get_key. rewrite (len_nonempty k Hk), Ht. reflexivity. }
  split; [reflexivity|]. split; [simpl; apply length_map|].
  intros i x Hi Hx. simpl.
  assert (Hslot : nth_error (map (fun e => Value_Get e k) v.(a)) i
                  = Some (Object_Get x.(o) k)).
  { rewrite nth_error_map, Hi. simpl. rewrite Hx. reflexivity. }
  split; [exact Hslot|].
  rewrite Hslot. unfold has_key. rewrite <- Object_Get_none.
  split; [intros H; injection H; auto | intros H; rewrite H; reflexivity].
Qed.

Lemma get_key_broadcast_witness :
  (json_array [json_object [("k", json_number "1")]; json_object []]).(t) = TypeArray
  /\ "k" <> EmptyString
  /\ exists res,
       get_key (Some (json_array [json_object [("k", json_number "1")]; json_object []])) "k"
         = Ok (Some res)
       /\ res.(a) = [Some (json_number "1"); None].
Proof.
  split; [reflexivity|]. split; [discriminate|].
  destruct (get_key_broadcast
              (json_array [json_object [("k", json_number "1")]; json_object []]) "k"
              eq_refl ltac:(discriminate)) as (res & Hres & _).
  exists res. split; [exact Hres|].
  vm_compute in Hres. injection Hres as Hres. rewrite <- Hres. reflexivity.
Defined.

(** C8 as stated fails where an element stores a JSON null under the key:
    the slot is null although the element has the key. *)
Lemma get_key_broadcast_stored_null :
  get_key (Some (json_array [json_object [("k", json_null)]])) "k"
    = Ok (new_array [Some json_null])
  /\ is_null (Some json_null) = true
  /\ has_key (json_object [("k", json_null)]) "k" = true.
Proof.
  repeat split.
Qed.

(** ** What a compiled step carries *)

Lemma split_go_cons (sep : string) (text : string) (skip : nat) (cur : list ascii) :
  exists piece rest, strings.split_go sep skip cur text = piece :: rest.
Proof.
  revert skip cur. induction text as [| c r IH]; intros skip cur; cbn [strings.split_go].
  - eexists; eexists; reflexivity.
  - destruct skip as [| k]; [| apply IH].
    destruct (strings.HasPrefix (String c r) sep); [eexists; eexists; reflexivity | apply IH].
Qed.

Lemma atoi_all_cons (xs : list string) (acc res : list Z) :
  atoi_all acc xs = inl res -> acc <> [] \/ xs <> [] -> res <> [].
Proof.
  revert acc. induction xs as [| x rest IH]; intros acc H Hne; cbn [atoi_all] in H.
  - injection H as H. subst res. destruct Hne as [Hne | Hne]; [exact Hne | contradiction].
  - destruct (strconv.Atoi (strings.Trim x " ")) as [i [err |]]; [discriminate|].
    apply (IH (append acc i) H). left. unfold append. destruct acc; discriminate.
Qed.

Lemma parse_bracket_token_shaped (token k op0 : string) (args0 : args_t) :
  parse_bracket_token token = (op0, args0, None) ->
  shaped (mkStep op0 k args0) = true.
Proof.
  unfold parse_bracket_token. intros H.
  destruct (scan_bracket (false, false, false) (range_string token))
    as [[[hasKey hasOp] hasLogic] |]; [| discriminate].
  destruct (hasLogic || hasOp).
  - injection H as H1 H2. subst. reflexivity.
  - destruct hasKey.
    + injection H as H1 H2. subst. unfold strings.Split.
      destruct (split_go_cons "," token 0 []) as (piece & rest & Hs). rewrite Hs.
      reflexivity.
    + destruct (atoi_all [] (strings.Split token ",")) as [res | err] eqn:E;
        [| discriminate].
      injection H as H1 H2. subst.
      assert (Hres : res <> []).
      { apply (atoi_all_cons _ _ _ E). right. unfold strings.Split.
        destruct (split_go_cons "," token 0 []) as (piece & rest & Hs). rewrite Hs.
        discriminate. }
      destruct res; [contradiction | reflexivity].
Qed.

Lemma parse_token_shaped (token : string) :
  (parse_token token).(p_err) = None ->
  shaped (mkStep (parse_token token).(p_op) (parse_token token).(p_key)
            (parse_token token).(p_args)) = true.
Proof.
  unfold parse_token.
  repeat match goal with
         | |- context [if ?b then _ else _] => destruct b
         end; cbn [p_err p_op p_key p_args]; try discriminate; try reflexivity.
  - match goal with
    | |- context [strings.Split ?x ?y] =>
        destruct (strings.Split x y) as [| t0 [| t1 [| t2 r]]]
    end; cbn [p_err p_op p_key p_args]; try discriminate.
    destruct (parse_bound t0), (parse_bound t1). cbn [p_err p_op p_key p_args].
    intros _. reflexivity.
  - match goal with
    | |- context [parse_bracket_token ?x] =>
        destruct (parse_bracket_token x) as [[op0 args0] err] eqn:H
    end.
    cbn [p_err p_op p_key p_args]. intros Herr. subst err.
    exact (parse_bracket_token_shaped _ _ _ _ H).
Qed.

Lemma compile_steps_shaped (tokens : list string) (sts : list step) :
  compile_steps tokens = Ok sts -> forallb shaped sts = true.
Proof.
  revert sts. induction tokens as [| token rest IH]; intros sts H; cbn [compile_steps] in H.
  - injection H as H. subst. reflexivity.
  - destruct (p_err (parse_token token)) eqn:Herr; [discriminate|].
    destruct (compile_steps rest) as [more | e | pn]; cbn [bind] in H; try discriminate.
    injection H as H. subst sts. cbn [forallb].
    rewrite (parse_token_shaped token Herr), (IH more eq_refl). reflexivity.
Qed.

Lemma Compile_steps_of_tokens (jpath : string) (c : Compiled) :
  Compile jpath = Ok c ->
  exists tokens, tokenize jpath = Ok tokens /\ compile_steps (tl tokens) = Ok c.(steps).
Proof.
  unfold Compile. intros H.
  destruct (tokenize jpath) as [tokens | e | pn]; cbn [bind] in H; try discriminate.
  destruct (index_at tokens 0) as [head | e | pn]; cbn [bind] in H; try discriminate.
  destruct (negb (String.eqb head "@") && negb (String.eqb head "$")); [discriminate|].
  destruct (compile_steps (tl tokens)) as [sts | e | pn] eqn:Hsts; cbn [bind] in H;
    try discriminate.
  injection H as H. subst c. cbn [steps].
  exists tokens. split; [reflexivity | exact Hsts].
Qed.

(** ** Walking a path *)

Section LookupProperties.

Variable lib : GoLib.

Lemma lookup_steps_app (root obj : option Value) (pre post : list step) :
  lookup_steps lib root obj (pre ++ post)
  = let* f := run_steps lib root obj pre in
    match f with
    | Next obj' => lookup_steps lib root obj' post
    | Return res => Ok res
    end.
Proof.
  revert obj. induction pre as [| st pre IH]; intros obj; simpl.
  - reflexivity.
  - destruct (lookup_step lib root obj st) as [[obj' | res] | e | p]; simpl; auto.
Qed.

Lemma Lookup_after_prefix (p : string) (root cur : option Value) (pre post : list step) :
  run_steps lib root root pre = Ok (Next cur) ->
  Lookup lib (mkCompiled p (pre ++ post)) root = lookup_steps lib root cur post.
Proof.
  intros Hpre. unfold Lookup. simpl. rewrite lookup_steps_app, Hpre. reflexivity.
Qed.

(** *** The scan step *)

Lemma lookup_step_scan (root obj : option Value) (st : step) :
  st.(op) = "scan" -> lookup_step lib root obj st = Err ErrNotSupported.
Proof.
  intros Hop. unfold lookup_step. rewrite Hop. reflexivity.
Qed.

(** C2, as the code has it: [*] compiles to a scan step and [Lookup] has no
    evaluation for it: when the walk reaches a scan step, [Lookup] fails with
    the not-supported error.  In the tokenizer a [..] emits a [*] token when
    the last token is not [*] and nothing when it is, and a [*] segment that
    ends the path is dropped when the last token is [*]; a [*] segment that
    is followed by a dot is emitted whatever the last token is.  So [$.*.*]
    has one [*] token and [$.*.*.a] has two. *)
Theorem Lookup_scan_step_not_supported
  (p : string) (root cur : option Value) (pre rest : list step) (st : step) :
  st.(op) = "scan" ->
  run_steps lib root root pre = Ok (Next cur) ->
  parse_token "*" = mkParsed "scan" "*" ArgsNil None
  /\ (forall tokens top idx, idx <> 0 -> last_at tokens = Ok top -> top <> "*" ->
       tokenize_body (tokens, ".") (idx, rune_of ".") = Ok (append tokens "*", "."))
  /\ (forall tokens idx, idx <> 0 ->
       tokenize_body (append tokens "*", ".") (idx, rune_of ".")
       = Ok (append tokens "*", "."))
  /\ (forall tokens, tokenize_flush (append tokens "*") "*" = Ok (append tokens "*"))
  /\ (forall tokens idx, idx <> 0 ->
       tokenize_body (tokens, ".*") (idx, rune_of ".") = Ok (append tokens "*", "."))
  /\ tokenize "$.*.*" = Ok ["$"; "*"]
  /\ tokenize "$.*.*.a" = Ok ["$"; "*"; "*"; "a"]
  /\ Lookup lib (mkCompiled p (pre ++ st :: rest)) root = Err ErrNotSupported.
Proof.
  intros Hop Hpre.
  assert (Hlast : forall tokens : list string, last_at (append tokens "*") = Ok "*").
  { intros tokens. unfold last_at, append. rewrite length_app. simpl List.length.
    rewrite (index_at_in_range (tokens ++ ["*"]) _ EmptyString)
      by (rewrite length_app; simpl; lia).
    replace (Z.to_nat (Z.of_nat (List.length tokens + 1) - 1)) with (List.length tokens) by lia.
    rewrite nth_middle. reflexivity. }
  split; [reflexivity|].
  split; [| split; [| split; [| split; [| split; [reflexivity | split; [reflexivity|]]]]]].
  - intros tokens top idx Hidx Htop Hstar.
    unfold tokenize_body. apply Z.eqb_neq in Hidx. rewrite Hidx.
    change (string_of_rune (rune_of ".")) with ".".
    change ("." ++ ".") with "..".
    change (String.eqb ".." ".") with false.
    change (String.eqb ".." "..") with true. cbv iota.
    rewrite Htop. cbn [bind]. apply String.eqb_neq in Hstar. rewrite Hstar. reflexivity.
  - intros tokens idx Hidx.
    unfold tokenize_body. apply Z.eqb_neq in Hidx. rewrite Hidx.
    change (string_of_rune (rune_of ".")) with ".".
    change ("." ++ ".") with "..".
    change (String.eqb ".." ".") with false.
    change (String.eqb ".." "..") with true. cbv iota.
    rewrite Hlast. reflexivity.
  - intros tokens. unfold tokenize_flush.
    change (negb (String.eqb "*" "*")) with false. cbv iota.
    rewrite Hlast. reflexivity.
  - intros tokens idx Hidx.
    unfold tokenize_body. apply Z.eqb_neq in Hidx. rewrite Hidx.
    reflexivity.
  - rewrite (Lookup_after_prefix p root cur pre (st :: rest) Hpre). simpl.
    rewrite (lookup_step_scan root cur st Hop). reflexivity.
Qed.

(** *** Null in the middle *)














End LookupProperties.

Lemma Lookup_scan_step_not_supported_witness :
  (mkStep "scan" "*" ArgsNil).(op) = "scan"
  /\ run_steps no_golib (Some store_doc) (Some store_doc) [mkStep "key" "store" ArgsNil]
     = Ok (Next (Value_Get (Some store_doc) "store"))
  /\ Compile "$.store..price"
     = Ok (mkCompiled "$.store..price"
             ([mkStep "key" "store" ArgsNil]
                ++ mkStep "scan" "*" ArgsNil :: [mkStep "key" "price" ArgsNil]))
  /\ Lookup no_golib
       (mkCompiled "$.store..price"
          ([mkStep "key" "store" ArgsNil]
             ++ mkStep "scan" "*" ArgsNil :: [mkStep "key" "price" ArgsNil]))
       (Some store_doc)
     = Err ErrNotSupported.
Proof.
  split; [reflexivity|]. split; [reflexivity|].
  split; [vm_compute; reflexivity|].
  apply (Lookup_scan_step_not_supported no_golib "$.store..price" (Some store_doc)
           (Value_Get (Some store_doc) "store")
           [mkStep "key" "store" ArgsNil] [mkStep "key" "price" ArgsNil]
           (mkStep "scan" "*" ArgsNil) eq_refl eq_refl).
Defined.

(** C2 as stated fails: [$..author] does not broadcast [author] over the
    children of the root, it fails; two [*] segments in a row followed by a
    name stay two tokens, and the lookup fails at the first of them. *)
Lemma Lookup_scan_fails_on_store :
  tokenize "$..author" = Ok ["$"; "*"; "author"]
  /\ (forall lib, JsonPathLookup lib (Some store_doc) "$..author" = Err ErrNotSupported)
  /\ tokenize "$.*.*.a" = Ok ["$"; "*"; "*"; "a"]
  /\ (forall lib, JsonPathLookup lib (Some store_doc) "$.*.*.a" = Err ErrNotSupported)
  /\ tokenize "$.*.*" = Ok ["$"; "*"]
  /\ tokenize "$.*..a" = Ok ["$"; "*"; "a"].
Proof.
  repeat split; try intros lib; vm_compute; reflexivity.
Qed.



(** ** Filter on a single value *)

Section FilterProperties.

Variable lib : GoLib.

Lemma get_filtered_object (v : Value) (root : option Value) (flt lp fop rp : string) :
  parse_filter flt = Ok (lp, fop, rp) ->
  v.(t) = TypeObject ->
  get_filtered lib (Some v) root flt
  = let* ok := filter_matches lib (Some v) root lp fop rp in
    Ok (false, if ok then [Some v] else []).
Proof.
  intros Hparse Ht. unfold get_filtered, filter_matches.
  rewrite Hparse. simpl. rewrite Ht.
  destruct (String.eqb fop "=~").
  - destruct (regFilterCompile lib rp); reflexivity.
  - reflexivity.
Qed.


Lemma lookup_step_filter (root cur : option Value) (st : step) (v : Value) (flt : string) :
  st.(op) = "filter" -> st.(args) = ArgsString flt ->
  get_key cur st.(key) = Ok (Some v) ->
  lookup_step lib root cur st
  = let* (isArr, ret) := get_filtered lib (Some v) root flt in
    if isArr then Ok (Next (new_array ret))
    else if Z.of_nat (List.length ret) =? 0 then Ok (Return None)
    else let* obj := index_at ret 0 in Ok (Next obj).
Proof.
  intros Hop Hargs Hkey. unfold lookup_step.
  rewrite Hop, Hargs, Hkey. reflexivity.
Qed.




End FilterProperties.



(** ** Compilation of bracket tokens *)

Lemma is_invalid_rune_never (v : rune) : is_invalid_rune v = false.
Proof.
  unfold is_invalid_rune.
  assert (H : (v <? rune_of "A") && (v >? rune_of "Z") = false).
  { destruct (v <? rune_of "A") eqn:H1; [|reflexivity].
    destruct (v >? rune_of "Z") eqn:H2; [|reflexivity].
    apply Z.ltb_lt in H1. rewrite Z.gtb_ltb in H2. apply Z.ltb_lt in H2.
    unfold rune_of in *. simpl in *. lia. }
  rewrite H. rewrite !andb_false_r. reflexivity.
Qed.

Lemma scan_bracket_total (vs : list (Z * rune)) (st : bool * bool * bool) :
  exists st', scan_bracket st vs = Some st'.
Proof.
  revert st. induction vs as [| [idx v] rest IH]; intros [[hasKey hasOp] hasLogic]; simpl.
  - eexists; reflexivity.
  - rewrite is_invalid_rune_never.
    repeat match goal with
           | |- context [if ?b then _ else _] => destruct b
           end; apply IH.
Qed.

(** C5 against the code: the character test of [parse_bracket_token] holds of
    no rune, so the scan rejects no token, and [['a#b']] compiles to a key
    step. *)
Theorem parse_bracket_token_rejects_no_char :
  (forall v, is_invalid_rune v = false)
  /\ (forall token, scan_bracket (false, false, false) (range_string token) <> None)
  /\ parse_bracket_token "'a#b'" = ("key", ArgsStrings ["a#b"], None)
  /\ Compile "$['a#b']"
     = Ok (mkCompiled "$['a#b']" [mkStep "key" EmptyString (ArgsStrings ["a#b"])]).
Proof.
  split; [exact is_invalid_rune_never|]. split.
  - intros token.
    destruct (scan_bracket_total (range_string token) (false, false, false)) as [st' H].
    rewrite H. discriminate.
  - split; vm_compute; reflexivity.
Qed.

Lemma parse_bracket_token_filter (token op0 : string) (args0 : args_t) (err : option error) :
  parse_bracket_token token = (op0, args0, err) -> op0 = "filter" -> err = None.
Proof.
  unfold parse_bracket_token. intros H Hop.
  destruct (scan_bracket (false, false, false) (range_string token))
    as [[[hasKey hasOp] hasLogic] |].
  - destruct (hasLogic || hasOp).
    + injection H as _ _ H. auto.
    + destruct hasKey.
      * injection H as H _ _. subst op0. discriminate.
      * destruct (atoi_all [] (strings.Split token ","));
          injection H as H _ _; subst op0; discriminate.
  - injection H as H _ _. subst op0. discriminate.
Qed.

(** C6 against the code: a token that compiles to a filter step never
    carries an error, wrapped in [?( )] or not. *)
Theorem parse_token_filter_never_fails (token : string) :
  (parse_token token).(p_op) = "filter" -> (parse_token token).(p_err) = None.
Proof.
  unfold parse_token.
  repeat match goal with
         | |- context [if ?b then _ else _] => destruct b
         end; simpl; try discriminate; try reflexivity.
  - match goal with
    | |- context [strings.Split ?x ?y] => destruct (strings.Split x y) as [| t0 [| t1 [| t2 r]]]
    end; simpl; try discriminate.
    destruct (parse_bound t0), (parse_bound t1). simpl. discriminate.
  - match goal with
    | |- context [parse_bracket_token ?x] =>
        destruct (parse_bracket_token x) as [[op0 args0] err] eqn:H
    end.
    simpl. intros Hop. exact (parse_bracket_token_filter _ _ _ _ H Hop).
Qed.

Lemma parse_token_filter_never_fails_witness :
  (parse_token "[?x]").(p_op) = "filter"
  /\ (parse_token "[?x]").(p_err) = None
  /\ parse_token "[?x]" = mkParsed "filter" EmptyString ArgsNil None
  /\ Compile "$[?x]" = Ok (mkCompiled "$[?x]" [mkStep "filter" EmptyString ArgsNil]).
Proof.
  split; [reflexivity|]. split.
  - apply (parse_token_filter_never_fails "[?x]"). reflexivity.
  - split; vm_compute; reflexivity.
Defined.

(** ** Panics *)

(** C1 against the code: [Compile] of the empty path indexes an empty token
    list; [Lookup] of a path compiled from a bracket with [?] and no [?( )]
    asserts a string on nil arguments; a slice whose start lies behind its end
    and an index into the nil slot of a broadcast panic as well. *)
Theorem Compile_and_Lookup_panic :
  Compile EmptyString = Panic IndexOutOfRange
  /\ Compile "$[?x]" = Ok (mkCompiled "$[?x]" [mkStep "filter" EmptyString ArgsNil])
  /\ (forall lib v,
        Lookup lib (mkCompiled "$[?x]" [mkStep "filter" EmptyString ArgsNil]) (Some v)
        = Panic InterfaceConversion)
  /\ (forall lib,
        JsonPathLookup lib
          (Some (json_array [json_number "1"; json_number "2"; json_number "3"])) "$[2:0]"
        = Panic IndexOutOfRange)
  /\ (forall lib,
        JsonPathLookup lib
          (Some (json_object [("a", json_array [json_object []])])) "$.a.b[0][0]"
        = Panic NilDereference).
Proof.
  split; [vm_compute; reflexivity|]. split; [vm_compute; reflexivity|].
  split; [intros lib v; reflexivity|].
  split; intros lib; vm_compute; reflexivity.
Qed.

(** ** Comparison of filter operands *)

Lemma isNumber_string (lib : GoLib) (text : string) :
  isNumber lib (new_string text) = Ok (ParseFloat_ok lib text).
Proof. reflexivity. Qed.

(** C10 against the code: [cmp_any] pastes the operand texts between quote
    characters and evaluates the result as a Go expression, so a text that
    holds a quote character moves the operator.  Whatever the evaluator
    answers, the two comparisons below get the same answer, yet the first pair
    is in lexicographic order and the second is not: the two cannot both
    return their lexicographic comparison. *)
Theorem cmp_any_pastes_operand_text (lib : GoLib) :
  ParseFloat_ok lib pasted_left = false ->
  ParseFloat_ok lib "b" = false ->
  cmp_any lib (new_string pasted_left) (new_string "c") "<"
  = cmp_any lib (new_string "b") (new_string pasted_right) "<"
  /\ String.ltb pasted_left "c" = true
  /\ String.ltb "b" pasted_right = false
  /\ ~ (cmp_any lib (new_string pasted_left) (new_string "c") "<"
        = Ok (String.ltb pasted_left "c")
        /\ cmp_any lib (new_string "b") (new_string pasted_right) "<"
           = Ok (String.ltb "b" pasted_right)).
Proof.
  intros Hleft Hb.
  assert (Hsame : cmp_any lib (new_string pasted_left) (new_string "c") "<"
                  = cmp_any lib (new_string "b") (new_string pasted_right) "<").
  { unfold cmp_any. change (negb (is_cmp_op "<")) with false. cbv iota.
    rewrite !isNumber_string, Hleft, Hb. reflexivity. }
  split; [exact Hsame|]. split; [reflexivity|]. split; [reflexivity|].
  intros [H1 H2]. rewrite Hsame, H2 in H1.
  change (String.ltb "b" pasted_right) with false in H1.
  change (String.ltb pasted_left "c") with true in H1.
  discriminate.
Qed.

Lemma cmp_any_pastes_operand_text_witness :
  ParseFloat_ok no_golib pasted_left = false
  /\ ParseFloat_ok no_golib "b" = false
  /\ cmp_any no_golib (new_string pasted_left) (new_string "c") "<"
     = cmp_any no_golib (new_string "b") (new_string pasted_right) "<".
Proof.
  split; [reflexivity|]. split; [reflexivity|].
  exact (proj1 (cmp_any_pastes_operand_text no_golib eq_refl eq_refl)).
Defined.

(** * Further properties *)

(** ** The tokenizer returns *)

Ltac break_ifs :=
  repeat match goal with
         | |- context [if ?b then _ else _] => destruct b
         end.

Lemma string_of_rune_cons (x : rune) : exists c r, string_of_rune x = String c r.
Proof.
  unfold string_of_rune, byte_string.
  break_ifs; simpl; eexists; eexists; reflexivity.
Qed.

Lemma append_cons_r (u : string) (c : ascii) (r : string) :
  exists d w, u ++ String c r = String d w.
Proof.
  destruct u as [| d w]; simpl; eexists; eexists; reflexivity.
Qed.

Lemma hd_error_append (tokens : list string) (tok h : string) :
  hd_error tokens = Some h -> hd_error (append tokens tok) = Some h.
Proof.
  destruct tokens as [| h0 rest]; [discriminate | intros H; exact H].
Qed.

Lemma last_at_nonempty (tokens : list string) (h : string) :
  hd_error tokens = Some h -> exists top, last_at tokens = Ok top.
Proof.
  destruct tokens as [| h0 rest]; [discriminate | intros _].
  exists (nth (Z.to_nat (Z.of_nat (List.length (h0 :: rest)) - 1)) (h0 :: rest) EmptyString).
  unfold last_at. apply index_at_in_range. simpl List.length. lia.
Qed.

Lemma tokenize_body_keeps_head (tokens : list string) (token h : string) (ix : Z * rune) :
  hd_error tokens = Some h -> fst ix <> 0 ->
  exists tokens' token',
    tokenize_body (tokens, token) ix = Ok (tokens', token') /\ hd_error tokens' = Some h.
Proof.
  intros Hh Hidx. destruct ix as [idx x]. simpl in Hidx.
  unfold tokenize_body. apply Z.eqb_neq in Hidx. rewrite Hidx.
  destruct (string_of_rune_cons x) as (c & r & Hx). rewrite Hx.
  destruct (append_cons_r token c r) as (d & w & Htok). rewrite Htok.
  destruct (last_at_nonempty tokens h Hh) as [top Htop]. rewrite Htop.
  cbn [bind first_byte_is].
  break_ifs; eexists; eexists; (split; [reflexivity | auto using hd_error_append]).
Qed.

Lemma range_go_positive (text : string) (idx : Z) (skip : nat) :
  0 < idx -> Forall (fun ix => fst ix <> 0) (range_go idx skip text).
Proof.
  revert idx skip. induction text as [| c r IH]; intros idx skip Hidx; simpl.
  - constructor.
  - destruct skip as [| k].
    + destruct (DecodeRune (String c r)) as [x w]. constructor.
      * simpl. lia.
      * apply IH. lia.
    + apply IH. lia.
Qed.

Lemma for_each_tokenize_keeps_head
  (ixs : list (Z * rune)) (tokens : list string) (token h : string) :
  hd_error tokens = Some h -> Forall (fun ix => fst ix <> 0) ixs ->
  exists tokens' token',
    for_each tokenize_body (tokens, token) ixs = Ok (tokens', token')
    /\ hd_error tokens' = Some h.
Proof.
  revert tokens token. induction ixs as [| ix rest IH]; intros tokens token Hh Hall;
    cbn [for_each].
  - exists tokens, token. split; [reflexivity | exact Hh].
  - inversion Hall as [| ? ? Hix Hrest]; subst.
    destruct (tokenize_body_keeps_head tokens token h ix Hh Hix)
      as (tokens1 & token1 & H1 & Hh1).
    rewrite H1. cbn [bind]. apply IH; assumption.
Qed.

Lemma tokenize_flush_keeps_head (tokens : list string) (token h : string) :
  hd_error tokens = Some h ->
  exists tokens', tokenize_flush tokens token = Ok tokens' /\ hd_error tokens' = Some h.
Proof.
  intros Hh. unfold tokenize_flush.
  destruct (last_at_nonempty tokens h Hh) as [top Htop]. rewrite Htop. cbn [bind].
  break_ifs; eexists; (split; [reflexivity | auto using hd_error_append]).
Qed.

Lemma tokenize_body_first (x : rune) :
  tokenize_body ([], EmptyString) (0, x)
  = if String.eqb (string_of_rune x) "$" || String.eqb (string_of_rune x) "@"
    then Ok ([string_of_rune x], EmptyString)
    else Err ErrShouldStartWithDollar.
Proof. reflexivity. Qed.

(** What [tokenize] does with a non-empty query, by its first rune [x]. *)
Lemma tokenize_cons (c : ascii) (r : string) :
  let x := fst (DecodeRune (String c r)) in
  if String.eqb (string_of_rune x) "$" || String.eqb (string_of_rune x) "@"
  then exists tokens,
         tokenize (String c r) = Ok tokens /\ hd_error tokens = Some (string_of_rune x)
  else tokenize (String c r) = Err ErrShouldStartWithDollar.
Proof.
  intros x. unfold tokenize, range_string. cbn [range_go]. subst x.
  destruct (DecodeRune (String c r)) as [x w]. cbn [fst for_each].
  rewrite tokenize_body_first.
  destruct (String.eqb (string_of_rune x) "$" || String.eqb (string_of_rune x) "@");
    [| reflexivity].
  cbn [bind].
  destruct (for_each_tokenize_keeps_head (range_go (0 + 1) (w - 1) r)
              [string_of_rune x] EmptyString (string_of_rune x) eq_refl)
    as (tokens1 & token1 & H1 & Hh1); [apply range_go_positive; lia|].
  rewrite H1. cbn [bind].
  destruct token1 as [| d w1].
  - exists tokens1. split; [reflexivity | exact Hh1].
  - destruct (len (String d w1) >? 0).
    + cbn [first_byte_is bind].
      destruct (Ascii.eqb d "."); apply tokenize_flush_keeps_head; exact Hh1.
    + exists tokens1. split; [reflexivity | exact Hh1].
Qed.

(** ** The first byte decides *)

Ltac bool_to_Z :=
  repeat match goal with
         | H : (_ && _) = true |- _ => apply andb_prop in H; destruct H
         | H : (_ || _) = false |- _ => apply orb_false_elim in H; destruct H
         | H : (_ <=? _) = true |- _ => apply Z.leb_le in H
         | H : (_ <=? _) = false |- _ => apply Z.leb_gt in H
         | H : (_ <? _) = true |- _ => apply Z.ltb_lt in H
         | H : (_ <? _) = false |- _ => apply Z.ltb_ge in H
         | H : (_ =? _) = true |- _ => apply Z.eqb_eq in H
         | H : (_ =? _) = false |- _ => apply Z.eqb_neq in H
         end.

Lemma byte_at_0 (c : ascii) (r : string) :
  byte_at (String c r) 0 = Z.of_nat (nat_of_ascii c).
Proof. reflexivity. Qed.

Lemma DecodeRune_low (c : ascii) (r : string) :
  (nat_of_ascii c < 128)%nat -> DecodeRune (String c r) = (rune_of c, 1%nat).
Proof.
  intros Hc. unfold DecodeRune. rewrite byte_at_0.
  destruct (Z.of_nat (nat_of_ascii c) <? 128) eqn:H; [reflexivity|].
  apply Z.ltb_ge in H. lia.
Qed.

Lemma string_of_rune_low (c : ascii) :
  (nat_of_ascii c < 128)%nat -> string_of_rune (rune_of c) = String c EmptyString.
Proof.
  intros Hc. unfold string_of_rune, rune_of.
  destruct ((0 <=? Z.of_nat (nat_of_ascii c)) && (Z.of_nat (nat_of_ascii c) <? 128)) eqn:H.
  - unfold byte_string. rewrite Nat2Z.id, ascii_nat_embedding. reflexivity.
  - apply andb_false_iff in H. destruct H as [H | H]; bool_to_Z; lia.
Qed.

Lemma DecodeRune_high (c : ascii) (r : string) :
  (128 <= nat_of_ascii c)%nat -> 128 <= fst (DecodeRune (String c r)).
Proof.
  intros Hc. unfold DecodeRune, is_cont, RuneError. rewrite byte_at_0.
  generalize (byte_at (String c r) 1) (byte_at (String c r) 2) (byte_at (String c r) 3).
  intros b1 b2 b3. set (b0 := Z.of_nat (nat_of_ascii c)).
  assert (Hb0 : 128 <= b0) by (subst b0; lia). clearbody b0.
  repeat match goal with
         | |- context [if ?b then _ else _] => destruct b eqn:?
         end; cbn [fst]; bool_to_Z; try lia.
  - destruct (b0 =? 224) eqn:E; bool_to_Z; lia.
  - destruct (b0 =? 240) eqn:E; bool_to_Z; lia.
Qed.

Lemma string_of_rune_high (x : rune) :
  128 <= x -> exists c1 c2 r, string_of_rune x = String c1 (String c2 r).
Proof.
  intros Hx. unfold string_of_rune, byte_string.
  destruct ((0 <=? x) && (x <? 128)) eqn:H; [bool_to_Z; lia|].
  break_ifs; simpl; eexists; eexists; eexists; reflexivity.
Qed.

(** The text of the first rune is the one-byte string [a] exactly when the
    first byte is [a], for an ASCII byte [a]. *)
Lemma first_rune_text (c a : ascii) (r : string) :
  (nat_of_ascii a < 128)%nat ->
  String.eqb (string_of_rune (fst (DecodeRune (String c r)))) (String a EmptyString)
  = Ascii.eqb c a.
Proof.
  intros Ha. destruct (Nat.lt_ge_cases (nat_of_ascii c) 128) as [Hc | Hc].
  - rewrite (DecodeRune_low c r Hc). cbn [fst]. rewrite (string_of_rune_low c Hc).
    simpl. destruct (Ascii.eqb c a); reflexivity.
  - destruct (string_of_rune_high _ (DecodeRune_high c r Hc)) as (c1 & c2 & w & Hx).
    rewrite Hx. simpl.
    destruct (Ascii.eqb c1 a); simpl;
      (destruct (Ascii.eqb c a) eqn:E; [apply Ascii.eqb_eq in E; subst c; lia | reflexivity]).
Qed.

Lemma compile_steps_returns (tokens : list string) : returns (compile_steps tokens) = true.
Proof.
  induction tokens as [| token rest IH]; simpl.
  - reflexivity.
  - destruct (p_err (parse_token token)); [reflexivity|].
    destruct (compile_steps rest); simpl in *; auto.
Qed.

(** X1: [tokenize] never panics and has exactly three outcomes, decided by
    the start of the query: the empty token list for the empty query; for a
    query whose first byte is [$] or [@], a token list whose first token is
    that mark; the start error for every other query. *)
Theorem tokenize_outcome (query : string) :
  match query with
  | EmptyString => tokenize query = Ok []
  | String c _ =>
      if Ascii.eqb c "$" || Ascii.eqb c "@"
      then exists rest, tokenize query = Ok (String c EmptyString :: rest)
      else tokenize query = Err ErrShouldStartWithDollar
  end.
Proof.
  destruct query as [| c r]; [reflexivity|].
  pose proof (tokenize_cons c r) as H. cbv zeta in H.
  rewrite (first_rune_text c "$" r) in H by (apply Nat.ltb_lt; reflexivity).
  rewrite (first_rune_text c "@" r) in H by (apply Nat.ltb_lt; reflexivity).
  destruct (Ascii.eqb c "$" || Ascii.eqb c "@") eqn:Hhead; [| exact H].
  destruct H as (tokens & Htok & Hhd).
  assert (Hx : string_of_rune (fst (DecodeRune (String c r))) = String c EmptyString).
  { apply orb_true_iff in Hhead. destruct Hhead as [E | E];
      apply Ascii.eqb_eq in E; subst c; reflexivity. }
  rewrite Hx in Hhd. destruct tokens as [| h rest]; [discriminate|].
  injection Hhd as Hh. subst h. exists rest. exact Htok.
Qed.

(** X2: whether a non-empty path passes the tokenizer is decided by its first
    byte alone.  When that byte is [$] or [@], [tokenize] succeeds with that
    mark as the first token and [Compile] returns (a compiled path or an
    error of a later token); for any other first byte both fail with the
    start error, whatever follows. *)
Theorem tokenize_first_byte (c : ascii) (r : string) :
  if Ascii.eqb c "$" || Ascii.eqb c "@"
  then (exists tokens,
          tokenize (String c r) = Ok tokens
          /\ hd_error tokens = Some (String c EmptyString))
       /\ returns (Compile (String c r)) = true
  else tokenize (String c r) = Err ErrShouldStartWithDollar
       /\ Compile (String c r) = Err ErrShouldStartWithDollar.
Proof.
  pose proof (tokenize_cons c r) as H. cbv zeta in H.
  rewrite (first_rune_text c "$" r) in H by (apply Nat.ltb_lt; reflexivity).
  rewrite (first_rune_text c "@" r) in H by (apply Nat.ltb_lt; reflexivity).
  destruct (Ascii.eqb c "$" || Ascii.eqb c "@") eqn:Hhead.
  - destruct H as (tokens & Htok & Hhd).
    assert (Hx : string_of_rune (fst (DecodeRune (String c r))) = String c EmptyString).
    { apply orb_true_iff in Hhead. destruct Hhead as [E | E];
        apply Ascii.eqb_eq in E; subst c; reflexivity. }
    rewrite Hx in Hhd. split.
    + exists tokens. split; assumption.
    + unfold Compile. rewrite Htok. cbn [bind].
      destruct tokens as [| h rest]; [discriminate|].
      injection Hhd as Hh. subst h.
      change (index_at (String c EmptyString :: rest) 0) with (Ok (A:=string) (String c EmptyString)).
      cbn [bind tl].
      assert (Hmark : negb (String.eqb (String c EmptyString) "@")
                      && negb (String.eqb (String c EmptyString) "$") = false).
      { apply orb_true_iff in Hhead. destruct Hhead as [E | E];
          apply Ascii.eqb_eq in E; subst c; reflexivity. }
      rewrite Hmark.
      pose proof (compile_steps_returns rest) as Hret.
      destruct (compile_steps rest); simpl in *; auto.
  - split; [exact H|]. unfold Compile. rewrite H. reflexivity.
Qed.

(** ** Dotted paths *)

Lemma append_assoc_s (u v w : string) : (u ++ v) ++ w = u ++ (v ++ w).
Proof. induction u as [| c u IH]; simpl; [reflexivity | rewrite IH; reflexivity]. Qed.

Lemma append_empty_r (u : string) : u ++ EmptyString = u.
Proof. induction u as [| c u IH]; simpl; [reflexivity | rewrite IH; reflexivity]. Qed.

Lemma all_chars_app (P : ascii -> bool) (u v : string) :
  all_chars P (u ++ v) = all_chars P u && all_chars P v.
Proof.
  induction u as [| c u IH]; simpl; [reflexivity|].
  rewrite IH, andb_assoc. reflexivity.
Qed.

Lemma range_go_cons_ascii (c : ascii) (r : string) (idx : Z) :
  is_ascii c = true ->
  range_go idx 0 (String c r) = (idx, rune_of c) :: range_go (idx + 1) 0 r.
Proof.
  intros Hc. unfold is_ascii in Hc. apply Nat.ltb_lt in Hc. cbn [range_go].
  rewrite (DecodeRune_low c r Hc). reflexivity.
Qed.

Lemma rune_of_inj (c d : ascii) : (rune_of c =? rune_of d) = Ascii.eqb c d.
Proof.
  unfold rune_of. destruct (Ascii.eqb c d) eqn:E.
  - apply Ascii.eqb_eq in E. subst. apply Z.eqb_refl.
  - apply Z.eqb_neq. intros H. apply Nat2Z.inj in H.
    apply (f_equal ascii_of_nat) in H. rewrite !ascii_nat_embedding in H.
    subst. rewrite Ascii.eqb_refl in E. discriminate.
Qed.

Lemma Index_absent (text : string) (c : ascii) :
  all_chars (fun d => negb (Ascii.eqb d c)) text = true ->
  strings.Index text (String c EmptyString) = -1.
Proof.
  induction text as [| d r IH]; intros H.
  - reflexivity.
  - simpl in H. apply andb_prop in H. destruct H as [Hd Hr].
    cbn [strings.Index strings.HasPrefix].
    apply negb_true_iff in Hd. rewrite Ascii.eqb_sym, Hd. cbn [andb].
    rewrite (IH Hr). reflexivity.
Qed.

Lemma plain_no_bracket (text : string) :
  all_chars plain_char text = true ->
  all_chars (fun d => negb (Ascii.eqb d "[")) text = true.
Proof.
  induction text as [| d r IH]; simpl; [reflexivity|].
  intros H. apply andb_prop in H. destruct H as [Hd Hr].
  unfold plain_char in Hd. apply andb_prop in Hd. destruct Hd as [_ Hd].
  rewrite Hd. apply IH. exact Hr.
Qed.

Lemma plain_is_ascii (text : string) :
  all_chars plain_char text = true -> all_chars is_ascii text = true.
Proof.
  induction text as [| d r IH]; simpl; [reflexivity|].
  intros H. apply andb_prop in H. destruct H as [Hd Hr].
  unfold plain_char in Hd. apply andb_prop in Hd. destruct Hd as [Hd _].
  apply andb_prop in Hd. destruct Hd as [Hd _].
  rewrite Hd. apply IH. exact Hr.
Qed.

Lemma no_bracket_after_dot (q : string) :
  all_chars plain_char q = true ->
  strings.Contains (String "." q) "[" = false.
Proof.
  intros Hq. unfold strings.Contains.
  rewrite (Index_absent (String "." q) "[").
  - reflexivity.
  - simpl. apply plain_no_bracket. exact Hq.
Qed.

Lemma substring_prefix (u v : string) : substring 0 (String.length u) (u ++ v) = u.
Proof.
  induction u as [| c u IH]; simpl.
  - destruct v; reflexivity.
  - rewrite IH. reflexivity.
Qed.

Lemma length_app_s (u v : string) :
  String.length (u ++ v) = (String.length u + String.length v)%nat.
Proof. induction u as [| c u IH]; simpl; [reflexivity | rewrite IH; reflexivity]. Qed.

(** A plain byte read after [.p] extends the pending token. *)
Lemma tokenize_body_plain (tokens : list string) (p : string) (c : ascii) (idx : Z) :
  idx <> 0 -> all_chars plain_char p = true -> plain_char c = true ->
  tokenize_body (tokens, "." ++ p) (idx, rune_of c)
  = Ok (tokens, "." ++ (p ++ String c EmptyString)).
Proof.
  intros Hidx Hp Hc. unfold tokenize_body. apply Z.eqb_neq in Hidx. rewrite Hidx.
  assert (Hc' := Hc). unfold plain_char in Hc'.
  apply andb_prop in Hc'. destruct Hc' as [Hc' Hbr].
  apply andb_prop in Hc'. destruct Hc' as [Hasc Hdot].
  rewrite (string_of_rune_low c) by (unfold is_ascii in Hasc; apply Nat.ltb_lt; exact Hasc).
  rewrite append_assoc_s.
  change ("." ++ (p ++ String c EmptyString)) with (String "." (p ++ String c EmptyString)).
  assert (Hq : all_chars plain_char (p ++ String c EmptyString) = true).
  { rewrite all_chars_app, Hp. simpl. rewrite Hc. reflexivity. }
  rewrite (no_bracket_after_dot _ Hq).
  rewrite (rune_of_inj c "."). apply negb_true_iff in Hdot. rewrite Hdot.
  destruct p as [| d p']; simpl.
  - rewrite Hdot. reflexivity.
  - destruct (p' ++ String c EmptyString) eqn:E; [destruct p'; discriminate|].
    simpl in Hp. apply andb_prop in Hp. destruct Hp as [Hd _].
    unfold plain_char in Hd. apply andb_prop in Hd. destruct Hd as [Hd _].
    apply andb_prop in Hd. destruct Hd as [_ Hd]. apply negb_true_iff in Hd.
    rewrite Hd. reflexivity.
Qed.

(** A dot read after [.p], [p] a name, closes the token [p]. *)
Lemma tokenize_body_dot (tokens : list string) (p : string) (idx : Z) :
  idx <> 0 -> all_chars plain_char p = true -> p <> EmptyString ->
  tokenize_body (tokens, "." ++ p) (idx, rune_of ".") = Ok (append tokens p, ".").
Proof.
  intros Hidx Hp Hne. unfold tokenize_body. apply Z.eqb_neq in Hidx. rewrite Hidx.
  change (string_of_rune (rune_of ".")) with ".".
  rewrite append_assoc_s.
  change ("." ++ (p ++ ".")) with (String "." (p ++ ".")).
  assert (Hcontains : strings.Contains (String "." (p ++ ".")) "[" = false).
  { unfold strings.Contains. rewrite (Index_absent (String "." (p ++ ".")) "[");
      [reflexivity|].
    simpl. rewrite all_chars_app, (plain_no_bracket p Hp). reflexivity. }
  rewrite Hcontains. rewrite Z.eqb_refl.
  destruct p as [| d p']; [contradiction|].
  assert (Hd : Ascii.eqb d "." = false).
  { simpl in Hp. apply andb_prop in Hp. destruct Hp as [Hd _].
    unfold plain_char in Hd. apply andb_prop in Hd. destruct Hd as [Hd _].
    apply andb_prop in Hd. destruct Hd as [_ Hd]. apply negb_true_iff in Hd. exact Hd. }
  change (String d p' ++ ".") with (String d (p' ++ ".")) in *.
  cbn [String.eqb]. rewrite Hd.
  unfold slice. cbn [String.length substring Nat.sub first_byte_is bind].
  rewrite length_app_s. cbn [String.length]. rewrite Nat.add_1_r.
  cbn [Nat.sub]. rewrite substring_prefix.
  reflexivity.
Qed.

Lemma for_each_name (n p : string) (tokens : list string) (idx : Z) (tail : string) :
  0 < idx -> all_chars plain_char p = true -> all_chars plain_char n = true ->
  exists idx',
    0 < idx'
    /\ for_each tokenize_body (tokens, "." ++ p) (range_go idx 0 (n ++ tail))
       = for_each tokenize_body (tokens, "." ++ (p ++ n)) (range_go idx' 0 tail).
Proof.
  revert p idx. induction n as [| c n IH]; intros p idx Hidx Hp Hn.
  - exists idx. rewrite append_empty_r. split; [exact Hidx | reflexivity].
  - simpl in Hn. apply andb_prop in Hn. destruct Hn as [Hc Hn].
    assert (Hasc : is_ascii c = true).
    { unfold plain_char in Hc. apply andb_prop in Hc. destruct Hc as [Hc _].
      apply andb_prop in Hc. destruct Hc as [Hc _]. exact Hc. }
    change (String c n ++ tail) with (String c (n ++ tail)).
    rewrite (range_go_cons_ascii c (n ++ tail) idx Hasc). cbn [for_each].
    rewrite (tokenize_body_plain tokens p c idx) by (auto; lia). cbn [bind].
    destruct (IH (p ++ String c EmptyString) (idx + 1)) as (idx' & Hpos & Heq).
    + lia.
    + rewrite all_chars_app, Hp. simpl. rewrite Hc. reflexivity.
    + exact Hn.
    + exists idx'. split; [exact Hpos|]. rewrite Heq.
      rewrite append_assoc_s. reflexivity.
Qed.

Lemma plain_name_parts (n : string) :
  plain_name n = true ->
  n <> EmptyString /\ all_chars plain_char n = true
  /\ String.eqb n "*" = false /\ String.eqb n "$" = false.
Proof.
  unfold plain_name. intros H.
  apply andb_prop in H. destruct H as [H Hdollar].
  apply andb_prop in H. destruct H as [H Hstar].
  apply andb_prop in H. destruct H as [Hne Hall].
  apply negb_true_iff in Hne, Hstar, Hdollar.
  repeat split; auto. intros E. subst n. discriminate.
Qed.

Lemma slice_from_dot (n : string) : slice_from (String "." n) 1 = n.
Proof.
  unfold slice_from. cbn [String.length Nat.sub substring].
  rewrite Nat.sub_0_r.
  rewrite <- (append_empty_r n) at 2. rewrite substring_prefix. reflexivity.
Qed.

(** The rest of [tokenize] once the loop stands at [(tokens, token)]. *)
Lemma tokenize_rest_dotted (names : list string) (tokens : list string) (prev : string)
  (idx : Z) :
  0 < idx -> tokens <> [] -> plain_name prev = true -> forallb plain_name names = true ->
  (let* st := for_each tokenize_body (tokens, "." ++ prev) (range_go idx 0 (dotted names)) in
   let '(tokens, token) := st in
   if len token >? 0 then
     let* dot := first_byte_is token "." in
     if dot then tokenize_flush tokens (slice_from token 1)
     else tokenize_flush tokens token
   else Ok tokens)
  = Ok (tokens ++ prev :: names)%list.
Proof.
  revert tokens prev idx. induction names as [| n rest IH];
    intros tokens prev idx Hidx Htok Hprev Hnames.
  - destruct (plain_name_parts prev Hprev) as (Hne & Hall & Hstar & _).
    cbn [dotted range_go for_each bind].
    change ("." ++ prev) with (String "." prev).
    replace (len (String "." prev) >? 0) with true
      by (symmetry; unfold len; rewrite Z.gtb_ltb; apply Z.ltb_lt; simpl String.length; lia).
    cbn [first_byte_is bind]. change (Ascii.eqb "." ".") with true. cbn iota.
    rewrite slice_from_dot. unfold tokenize_flush. rewrite Hstar. reflexivity.
  - cbn [forallb] in Hnames. apply andb_prop in Hnames. destruct Hnames as [Hn Hrest].
    destruct (plain_name_parts prev Hprev) as (Hne & Hall & _ & _).
    destruct (plain_name_parts n Hn) as (_ & Halln & _ & _).
    cbn [dotted]. change ("." ++ n ++ dotted rest) with (String "." (n ++ dotted rest)).
    rewrite (range_go_cons_ascii "." _ idx eq_refl). cbn [for_each].
    rewrite (tokenize_body_dot tokens prev idx) by (auto; lia). cbn [bind].
    destruct (for_each_name n EmptyString (append tokens prev) (idx + 1) (dotted rest))
      as (idx' & Hpos & Heq); [lia | reflexivity | exact Halln |].
    change ("." ++ EmptyString) with "." in Heq. rewrite Heq.
    change (EmptyString ++ n) with n.
    rewrite (IH (append tokens prev) n idx' Hpos); auto.
    + unfold append. rewrite <- app_assoc. reflexivity.
    + unfold append. destruct tokens; discriminate.
Qed.

Lemma tokenize_head_dotted (c0 : ascii) (names : list string) :
  c0 = "$"%char \/ c0 = "@"%char ->
  forallb plain_name names = true ->
  tokenize (String c0 (dotted names)) = Ok (String c0 EmptyString :: names).
Proof.
  intros Hc0 Hnames.
  assert (Hasc : is_ascii c0 = true) by (destruct Hc0; subst; reflexivity).
  assert (Hfirst : tokenize_body ([], EmptyString) (0, rune_of c0)
                   = Ok ([String c0 EmptyString], EmptyString))
    by (destruct Hc0; subst; reflexivity).
  destruct names as [| n rest].
  - destruct Hc0; subst; reflexivity.
  - cbn [forallb] in Hnames. apply andb_prop in Hnames. destruct Hnames as [Hn Hrest].
    destruct (plain_name_parts n Hn) as (_ & Halln & _ & _).
    unfold tokenize, range_string.
    rewrite (range_go_cons_ascii c0 _ 0 Hasc). cbn [for_each].
    rewrite Hfirst. cbn [bind dotted].
    change ("." ++ n ++ dotted rest) with (String "." (n ++ dotted rest)).
    rewrite (range_go_cons_ascii "." _ (0 + 1) eq_refl). cbn [for_each].
    change (tokenize_body ([String c0 EmptyString], EmptyString) (0 + 1, rune_of "."))
      with (Ok (A:=list string * string) ([String c0 EmptyString], ".")).
    cbn [bind].
    destruct (for_each_name n EmptyString [String c0 EmptyString] (0 + 1 + 1) (dotted rest))
      as (idx' & Hpos & Heq); [lia | reflexivity | exact Halln |].
    change ("." ++ EmptyString) with "." in Heq. rewrite Heq.
    change (EmptyString ++ n) with n.
    rewrite (tokenize_rest_dotted rest [String c0 EmptyString] n idx' Hpos); auto.
    discriminate.
Qed.

(** X3: a path written as a root mark followed by plain dotted names
    tokenizes into the mark and the names, in order, nothing added and
    nothing dropped. *)
Theorem tokenize_dotted (names : list string) :
  forallb plain_name names = true ->
  tokenize ("$" ++ dotted names) = Ok ("$" :: names)
  /\ tokenize ("@" ++ dotted names) = Ok ("@" :: names).
Proof.
  intros Hnames. split.
  - apply (tokenize_head_dotted "$" names); auto.
  - apply (tokenize_head_dotted "@" names); auto.
Qed.

Lemma tokenize_dotted_witness :
  forallb plain_name ["store"; "book"; "price"] = true
  /\ tokenize "$.store.book.price" = Ok ["$"; "store"; "book"; "price"].
Proof.
  split; [reflexivity|].
  exact (proj1 (tokenize_dotted ["store"; "book"; "price"] eq_refl)).
Defined.

Lemma parse_token_plain (n : string) :
  plain_name n = true -> parse_token n = mkParsed "key" n ArgsNil None.
Proof.
  intros Hn. destruct (plain_name_parts n Hn) as (_ & Hall & Hstar & Hdollar).
  unfold parse_token. rewrite Hdollar, Hstar.
  rewrite (Index_absent n "[" (plain_no_bracket n Hall)). reflexivity.
Qed.

Lemma compile_steps_plain (names : list string) :
  forallb plain_name names = true ->
  compile_steps names = Ok (map key_step names).
Proof.
  induction names as [| n rest IH]; intros H.
  - reflexivity.
  - cbn [forallb] in H. apply andb_prop in H. destruct H as [Hn Hrest].
    cbn [compile_steps]. rewrite (parse_token_plain n Hn). cbn [p_err p_op p_key p_args].
    rewrite (IH Hrest). reflexivity.
Qed.

Lemma Compile_of_tokens (p h : string) (toks : list string) (sts : list step) :
  tokenize p = Ok (h :: toks) ->
  h = "$" \/ h = "@" ->
  compile_steps toks = Ok sts ->
  Compile p = Ok (mkCompiled p sts).
Proof.
  intros Htok Hh Hsts. unfold Compile. rewrite Htok. cbn [bind].
  change (index_at (h :: toks) 0) with (Ok (A:=string) h). cbn [bind tl].
  replace (negb (String.eqb h "@") && negb (String.eqb h "$")) with false
    by (destruct Hh; subst h; reflexivity).
  rewrite Hsts. reflexivity.
Qed.

(** X4: a path of plain dotted names compiles to one key step per name, with
    no arguments, in the order written. *)
Theorem Compile_dotted (names : list string) :
  forallb plain_name names = true ->
  Compile ("$" ++ dotted names)
  = Ok (mkCompiled ("$" ++ dotted names) (map key_step names)).
Proof.
  intros Hnames. apply (Compile_of_tokens _ "$" names).
  - apply (tokenize_head_dotted "$" names); auto.
  - left. reflexivity.
  - apply compile_steps_plain. exact Hnames.
Qed.

Lemma Compile_dotted_witness :
  forallb plain_name ["head_commit"; "author"; "username"] = true
  /\ Compile "$.head_commit.author.username"
     = Ok (mkCompiled "$.head_commit.author.username"
             [key_step "head_commit"; key_step "author"; key_step "username"]).
Proof.
  split; [reflexivity|].
  exact (Compile_dotted ["head_commit"; "author"; "username"] eq_refl).
Defined.

Section DottedLookup.

Variable lib : GoLib.

Lemma lookup_step_key_step (root obj : option Value) (n : string) :
  n <> EmptyString ->
  lookup_step lib root obj (key_step n) = let* found := get_key obj n in Ok (Next found).
Proof.
  intros Hn. unfold lookup_step, key_step, with_key. cbn [op key args].
  change (String.eqb "key" "key") with true. cbn iota.
  destruct n as [| c r]; [contradiction|].
  replace (len (String c r) >? 0) with true
    by (symmetry; unfold len; rewrite Z.gtb_ltb; apply Z.ltb_lt; simpl String.length; lia).
  reflexivity.
Qed.

Lemma lookup_steps_key_steps (root obj : option Value) (names : list string) :
  forallb plain_name names = true ->
  lookup_steps lib root obj (map key_step names) = for_each get_key obj names.
Proof.
  revert obj. induction names as [| n rest IH]; intros obj H.
  - reflexivity.
  - cbn [forallb] in H. apply andb_prop in H. destruct H as [Hn Hrest].
    destruct (plain_name_parts n Hn) as (Hne & _).
    cbn [map lookup_steps for_each]. rewrite (lookup_step_key_step root obj n Hne).
    destruct (get_key obj n) as [found | e | pn]; cbn [bind]; auto.
Qed.

Lemma lookup_of_plain_tokens (root : option Value) (p h : string) (names : list string) :
  tokenize p = Ok (h :: names) ->
  h = "$" \/ h = "@" ->
  forallb plain_name names = true ->
  JsonPathLookup lib root p = for_each get_key root names.
Proof.
  intros Htok Hh Hnames. unfold JsonPathLookup.
  rewrite (Compile_of_tokens p h names (map key_step names) Htok Hh
             (compile_steps_plain names Hnames)).
  cbn [bind]. unfold Lookup. cbn [steps].
  apply lookup_steps_key_steps. exact Hnames.
Qed.

Lemma tokenize_dollar_dotted (names : list string) :
  forallb plain_name names = true ->
  tokenize ("$" ++ dotted names) = Ok ("$" :: names).
Proof. intros Hnames. apply (tokenize_head_dotted "$" names); auto. Qed.

(** X5: looking up a path of plain dotted names is resolving the names one
    after the other with [get_key], from the root on; the first failing
    resolution is the result. *)
Theorem Lookup_dotted (root : option Value) (names : list string) :
  forallb plain_name names = true ->
  JsonPathLookup lib root ("$" ++ dotted names) = for_each get_key root names.
Proof.
  intros Hnames.
  apply (lookup_of_plain_tokens root _ "$" names);
    [apply tokenize_dollar_dotted; exact Hnames | left; reflexivity | exact Hnames].
Qed.

Lemma for_each_get_key_fields (x v : Value) (names : list string) :
  forallb plain_name names = true ->
  field_path x names = Some v ->
  for_each get_key (Some x) names = Ok (Some v).
Proof.
  revert x. induction names as [| n rest IH]; intros x Hnames Hpath.
  - simpl in Hpath. injection Hpath as Hpath. subst. reflexivity.
  - cbn [forallb] in Hnames. apply andb_prop in Hnames. destruct Hnames as [Hn Hrest].
    destruct (plain_name_parts n Hn) as (Hne & _).
    cbn [field_path] in Hpath.
    destruct x.(t) eqn:Ht; try discriminate.
    destruct (Object_Get x.(o) n) as [y |] eqn:Hget; [| discriminate].
    cbn [for_each]. unfold get_key at 1. rewrite (len_nonempty n Hne), Ht.
    unfold Value_Exists, Value_Get. rewrite Ht, Hget. cbn [negb bind].
    apply IH; assumption.
Qed.

(** X6: when every name of a plain dotted path is a field of the object
    reached so far, the lookup returns exactly the value that walking the
    fields by hand reaches. *)
Theorem Lookup_field_path (root v : Value) (names : list string) :
  forallb plain_name names = true ->
  field_path root names = Some v ->
  JsonPathLookup lib (Some root) ("$" ++ dotted names) = Ok (Some v).
Proof.
  intros Hnames Hpath.
  rewrite (lookup_of_plain_tokens (Some root) _ "$" names
             (tokenize_dollar_dotted names Hnames) (or_introl eq_refl) Hnames).
  apply for_each_get_key_fields; assumption.
Qed.

End DottedLookup.

Lemma Lookup_dotted_witness :
  forallb plain_name ["store"; "price"] = true
  /\ JsonPathLookup no_golib (Some store_doc) "$.store.price"
     = for_each get_key (Some store_doc) ["store"; "price"].
Proof.
  split; [reflexivity|].
  exact (Lookup_dotted no_golib (Some store_doc) ["store"; "price"] eq_refl).
Defined.

Lemma Lookup_field_path_witness :
  forallb plain_name ["store"; "price"] = true
  /\ field_path store_doc ["store"; "price"] = Some (json_number "8.95")
  /\ JsonPathLookup no_golib (Some store_doc) "$.store.price" = Ok (Some (json_number "8.95")).
Proof.
  split; [reflexivity|]. split; [reflexivity|].
  exact (Lookup_field_path no_golib store_doc (json_number "8.95") ["store"; "price"]
           eq_refl eq_refl).
Defined.

Lemma for_each_app {S X : Type} (body : S -> X -> result S) (st : S) (xs ys : list X) :
  for_each body st (xs ++ ys)%list
  = let* st' := for_each body st xs in for_each body st' ys.
Proof.
  revert st. induction xs as [| x rest IH]; intros st; cbn [List.app for_each bind].
  - reflexivity.
  - destruct (body st x) as [st' | e | pn]; cbn [bind]; auto.
Qed.

Lemma forallb_plain_app (xs ys : list string) :
  forallb plain_name (xs ++ ys)%list = true ->
  forallb plain_name xs = true /\ forallb plain_name ys = true.
Proof.
  rewrite forallb_app. intros H. apply andb_prop in H. exact H.
Qed.

(** X7: when the fields exist up to an object that lacks the next name, the
    lookup of a plain dotted path fails with the key-not-found error for that
    name, whatever names follow. *)
Theorem Lookup_missing_field
  (lib : GoLib) (root x : Value) (pre post : list string) (n : string) :
  forallb plain_name (pre ++ n :: post)%list = true ->
  field_path root pre = Some x ->
  x.(t) = TypeObject ->
  has_key x n = false ->
  JsonPathLookup lib (Some root) ("$" ++ dotted (pre ++ n :: post)%list)
  = Err (ErrKeyNotFound n).
Proof.
  intros Hnames Hpath Ht Hkey.
  rewrite (lookup_of_plain_tokens lib (Some root) _ "$" _
             (tokenize_dollar_dotted _ Hnames) (or_introl eq_refl) Hnames).
  destruct (forallb_plain_app pre (n :: post) Hnames) as [Hpre Hrest].
  rewrite for_each_app. rewrite (for_each_get_key_fields root x pre Hpre Hpath).
  cbn [bind for_each]. cbn [forallb] in Hrest. apply andb_prop in Hrest.
  destruct Hrest as [Hn _]. destruct (plain_name_parts n Hn) as (Hne & _).
  unfold get_key. rewrite (len_nonempty n Hne), Ht.
  unfold Value_Exists, Value_Get. rewrite Ht.
  unfold has_key in Hkey. apply Object_Get_none in Hkey. rewrite Hkey. reflexivity.
Qed.

Lemma Lookup_missing_field_witness :
  forallb plain_name (["store"] ++ "isbn" :: ["text"])%list = true
  /\ field_path store_doc ["store"]
     = Some (json_object [("author", json_string "Nigel Rees");
                          ("price", json_number "8.95")])
  /\ JsonPathLookup no_golib (Some store_doc) "$.store.isbn.text"
     = Err (ErrKeyNotFound "isbn").
Proof.
  split; [reflexivity|]. split; [reflexivity|].
  exact (Lookup_missing_field no_golib store_doc
           (json_object [("author", json_string "Nigel Rees");
                         ("price", json_number "8.95")])
           ["store"] ["text"] "isbn" eq_refl eq_refl eq_refl eq_refl).
Defined.

(** ** Operand paths of a filter *)

Lemma for_each_ext {S X : Type} (f g : S -> X -> result S) (xs : list X) :
  (forall st x, In x xs -> f st x = g st x) ->
  forall st, for_each f st xs = for_each g st xs.
Proof.
  induction xs as [| x rest IH]; intros Hfg st; cbn [for_each].
  - reflexivity.
  - rewrite (Hfg st x) by (left; reflexivity).
    destruct (g st x) as [st' | e | pn]; cbn [bind]; auto.
    apply IH. intros st0 y Hy. apply Hfg. right. exact Hy.
Qed.

Lemma filter_path_body_plain (xobj : option Value) (n : string) :
  plain_name n = true -> filter_path_body xobj n = get_key xobj n.
Proof.
  intros Hn. unfold filter_path_body. rewrite (parse_token_plain n Hn). reflexivity.
Qed.

Lemma filter_path_dotted (c0 : ascii) (obj : option Value) (names : list string) :
  c0 = "$"%char \/ c0 = "@"%char ->
  forallb plain_name names = true ->
  filter_get_from_explicit_path obj (String c0 (dotted names)) = for_each get_key obj names.
Proof.
  intros Hc0 Hnames. unfold filter_get_from_explicit_path.
  rewrite (tokenize_head_dotted c0 names Hc0 Hnames). cbn [bind].
  change (index_at (String c0 EmptyString :: names) 0)
    with (Ok (A:=string) (String c0 EmptyString)).
  cbn [bind tl].
  assert (Hmark : negb (String.eqb (String c0 EmptyString) "@")
                  && negb (String.eqb (String c0 EmptyString) "$") = false)
    by (destruct Hc0; subst; reflexivity).
  rewrite Hmark. apply for_each_ext.
  intros st n Hin. apply filter_path_body_plain.
  rewrite forallb_forall in Hnames. apply Hnames. exact Hin.
Qed.

Lemma HasPrefix_two (c d : ascii) (w : string) (c' d' : ascii) :
  strings.HasPrefix (String c (String d w)) (String c' (String d' EmptyString))
  = Ascii.eqb c' c && Ascii.eqb d' d.
Proof.
  cbn [strings.HasPrefix].
  destruct w; cbn [strings.HasPrefix]; rewrite andb_true_r; reflexivity.
Qed.

(** X8: a filter operand written as [@] or [$] followed by at least one plain
    dotted name is resolved name by name with [get_key]: from the candidate
    element for [@], from the document root for [$], where it is what the
    lookup of the same path returns. *)
Theorem get_lp_v_dotted (lib : GoLib) (obj root : option Value) (n : string)
  (names : list string) :
  forallb plain_name (n :: names) = true ->
  get_lp_v obj root ("@" ++ dotted (n :: names)) = for_each get_key obj (n :: names)
  /\ get_lp_v obj root ("$" ++ dotted (n :: names))
     = JsonPathLookup lib root ("$" ++ dotted (n :: names)).
Proof.
  intros Hnames. split.
  - unfold get_lp_v.
    change ("@" ++ dotted (n :: names)) with (String "@" (String "." (n ++ dotted names))).
    rewrite HasPrefix_two. cbn [Ascii.eqb Bool.eqb andb].
    apply (filter_path_dotted "@" obj (n :: names)); auto.
  - rewrite (lookup_of_plain_tokens lib root _ "$" (n :: names)
               (tokenize_dollar_dotted _ Hnames) (or_introl eq_refl) Hnames).
    unfold get_lp_v.
    change ("$" ++ dotted (n :: names)) with (String "$" (String "." (n ++ dotted names))).
    rewrite !HasPrefix_two. cbn [Ascii.eqb Bool.eqb andb].
    apply (filter_path_dotted "$" root (n :: names)); auto.
Qed.

Lemma get_lp_v_dotted_witness :
  forallb plain_name ["store"; "price"] = true
  /\ get_lp_v (Some store_doc) (Some nested_doc) "@.store.price"
     = for_each get_key (Some store_doc) ["store"; "price"].
Proof.
  split; [reflexivity|].
  exact (proj1 (get_lp_v_dotted no_golib (Some store_doc) (Some nested_doc)
                  "store" ["price"] eq_refl)).
Defined.

(** ** Slices in general *)

Ltac split_bools :=
  repeat match goal with
         | H : (_ || _) = true |- _ => apply orb_prop in H; destruct H
         | H : (_ && _) = false |- _ => apply andb_false_iff in H; destruct H
         end; bool_to_Z.

(** The slice of an array between normalized bounds. *)
Lemma get_range_between (v : Value) (frm to : option Z) (lo hi : Z) :
  v.(t) = TypeArray ->
  let L := Z.of_nat (List.length v.(a)) in
  (match frm with None => 0 | Some f => if f <? 0 then L + f else f end) = lo ->
  (match to with
   | None => L
   | Some e => if e <? 0 then L + e + 1 else wrap_int (e + 1)
   end) = hi ->
  1 <= L <= int_max ->
  0 <= lo < L -> 0 <= hi <= L ->
  get_range (Some v) frm to
  = if hi <? lo then Panic IndexOutOfRange
    else Ok (new_array (firstn (Z.to_nat (hi - lo)) (skipn (Z.to_nat lo) v.(a)))).
Proof.
  intros Ht L Hlo Hhi HL Hlo_range Hhi_range.
  unfold get_range. rewrite Ht. fold L.
  assert (Hfrm : (if match frm with None => 0 | Some f => f end <? 0
                  then L + match frm with None => 0 | Some f => f end
                  else match frm with None => 0 | Some f => f end) = lo).
  { destruct frm as [f |]; [exact Hlo | simpl; exact Hlo]. }
  assert (Hto : (if match to with None => L - 1 | Some x => x end <? 0
                 then L + match to with None => L - 1 | Some x => x end + 1
                 else wrap_int (match to with None => L - 1 | Some x => x end + 1)) = hi).
  { destruct to as [e |]; [exact Hhi|].
    destruct (L - 1 <? 0) eqn:E; bool_to_Z; [lia|].
    replace (L - 1 + 1) with L by lia.
    rewrite wrap_int_in_range by (unfold int_min, int_max in *; lia). exact Hhi. }
  cbv zeta. rewrite Hfrm, Hto.
  rewrite !Z.geb_leb, !Z.gtb_ltb.
  destruct ((lo <? 0) || (L <=? lo)) eqn:E1; [split_bools; lia|].
  destruct ((hi <? 0) || (L <? hi)) eqn:E2; [split_bools; lia|].
  unfold slice_at. fold L.
  destruct (lo <? 0) eqn:E3; [bool_to_Z; lia|].
  destruct (L <? hi) eqn:E4; [bool_to_Z; lia|].
  rewrite orb_false_r. cbn [orb].
  destruct (hi <? lo); reflexivity.
Qed.

(** X9: a slice [[f:e]] with [0 <= f <= e < L] returns the elements at the
    positions [f] to [e], both included: [e - f + 1] of them. *)
Theorem get_range_inclusive (v : Value) (f e : Z) :
  v.(t) = TypeArray ->
  Z.of_nat (List.length v.(a)) <= int_max ->
  0 <= f <= e -> e < Z.of_nat (List.length v.(a)) ->
  get_range (Some v) (Some f) (Some e)
  = Ok (new_array (firstn (Z.to_nat (e - f + 1)) (skipn (Z.to_nat f) v.(a))))
  /\ Z.of_nat (List.length (firstn (Z.to_nat (e - f + 1)) (skipn (Z.to_nat f) v.(a))))
     = e - f + 1.
Proof.
  intros Ht Hmax Hfe He. split.
  - rewrite (get_range_between v (Some f) (Some e) f (e + 1) Ht).
    + destruct (e + 1 <? f) eqn:E; [bool_to_Z; lia|].
      replace (e + 1 - f) with (e - f + 1) by lia. reflexivity.
    + destruct (f <? 0) eqn:E; [bool_to_Z; lia | reflexivity].
    + destruct (e <? 0) eqn:E; [bool_to_Z; lia|].
      apply wrap_int_in_range. unfold int_min, int_max in *. lia.
    + lia.
    + lia.
    + lia.
  - rewrite length_firstn, length_skipn. lia.
Qed.

Lemma get_range_inclusive_witness :
  (json_array (map json_number ["1"; "2"; "3"; "4"; "5"])).(t) = TypeArray
  /\ get_range (Some (json_array (map json_number ["1"; "2"; "3"; "4"; "5"])))
       (Some 1) (Some 3)
     = Ok (Some (json_array (map json_number ["2"; "3"; "4"]))).
Proof.
  split; [reflexivity|].
  refine (proj1 (get_range_inclusive
                   (json_array (map json_number ["1"; "2"; "3"; "4"; "5"])) 1 3
                   eq_refl _ _ _)).
  - vm_compute. discriminate.
  - lia.
  - simpl. lia.
Defined.

(** X10: with the end left open, [[-k:]] returns the last [k] elements
    ([1 <= k <= L]); with the start left open, [[:e]] returns the first
    [e + 1] elements ([0 <= e < L]). *)
Theorem get_range_open_ended (v : Value) (k e : Z) :
  v.(t) = TypeArray ->
  let L := Z.of_nat (List.length v.(a)) in
  L <= int_max ->
  1 <= k <= L -> 0 <= e < L ->
  get_range (Some v) (Some (- k)) None = Ok (new_array (skipn (Z.to_nat (L - k)) v.(a)))
  /\ get_range (Some v) None (Some e) = Ok (new_array (firstn (Z.to_nat (e + 1)) v.(a))).
Proof.
  intros Ht L Hmax Hk He. split.
  - rewrite (get_range_between v (Some (- k)) None (L - k) L Ht); fold L.
    + destruct (L <? L - k) eqn:E; [bool_to_Z; lia|].
      rewrite firstn_all2; [reflexivity|].
      rewrite length_skipn. lia.
    + destruct (- k <? 0) eqn:E; bool_to_Z; lia.
    + reflexivity.
    + lia.
    + lia.
    + lia.
  - rewrite (get_range_between v None (Some e) 0 (e + 1) Ht); fold L.
    + destruct (e + 1 <? 0) eqn:E; [bool_to_Z; lia|].
      rewrite Z.sub_0_r. reflexivity.
    + reflexivity.
    + destruct (e <? 0) eqn:E; [bool_to_Z; lia|].
      apply wrap_int_in_range. unfold int_min, int_max in *. lia.
    + lia.
    + lia.
    + lia.
Qed.

Lemma get_range_open_ended_witness :
  (json_array (map json_number ["1"; "2"; "3"; "4"; "5"])).(t) = TypeArray
  /\ get_range (Some (json_array (map json_number ["1"; "2"; "3"; "4"; "5"])))
       (Some (- 2)) None
     = Ok (Some (json_array (map json_number ["4"; "5"])))
  /\ get_range (Some (json_array (map json_number ["1"; "2"; "3"; "4"; "5"])))
       None (Some 1)
     = Ok (Some (json_array (map json_number ["1"; "2"]))).
Proof.
  split; [reflexivity|].
  refine (get_range_open_ended
            (json_array (map json_number ["1"; "2"; "3"; "4"; "5"])) 2 1 eq_refl _ _ _).
  - vm_compute. discriminate.
  - simpl. lia.
  - simpl. lia.
Defined.

(** X11: [get_range] checks each bound against the length but not the two
    against each other: a slice [[f:e]] whose start lies more than one
    position behind its end, both within the array, panics on the slice
    expression instead of returning an error. *)
Theorem get_range_reversed_panics (v : Value) (f e : Z) :
  v.(t) = TypeArray ->
  Z.of_nat (List.length v.(a)) <= int_max ->
  0 <= e -> e + 1 < f -> f < Z.of_nat (List.length v.(a)) ->
  get_range (Some v) (Some f) (Some e) = Panic IndexOutOfRange.
Proof.
  intros Ht Hmax He Hf HL.
  rewrite (get_range_between v (Some f) (Some e) f (e + 1) Ht).
  - destruct (e + 1 <? f) eqn:E; [reflexivity | bool_to_Z; lia].
  - destruct (f <? 0) eqn:E; [bool_to_Z; lia | reflexivity].
  - destruct (e <? 0) eqn:E; [bool_to_Z; lia|].
    apply wrap_int_in_range. unfold int_min, int_max in *. lia.
  - lia.
  - lia.
  - lia.
Qed.

Lemma get_range_reversed_panics_witness :
  (json_array (map json_number ["1"; "2"; "3"])).(t) = TypeArray
  /\ get_range (Some (json_array (map json_number ["1"; "2"; "3"]))) (Some 2) (Some 0)
     = Panic IndexOutOfRange.
Proof.
  split; [reflexivity|].
  refine (get_range_reversed_panics (json_array (map json_number ["1"; "2"; "3"])) 2 0
            eq_refl _ _ _ _).
  - vm_compute. discriminate.
  - lia.
  - lia.
  - simpl. lia.
Defined.

(** ** Lists of indexes *)

Lemma for_each_collect {X Y : Type} (f : X -> result Y) (g : X -> Y) (xs : list X)
  (acc : list Y) :
  (forall x, In x xs -> f x = Ok (g x)) ->
  for_each (fun res x => let* tmp := f x in Ok (append res tmp)) acc xs
  = Ok (acc ++ map g xs)%list.
Proof.
  revert acc. induction xs as [| x rest IH]; intros acc Hf; cbn [for_each map].
  - rewrite app_nil_r. reflexivity.
  - rewrite (Hf x) by (left; reflexivity). cbn [bind].
    rewrite IH by (intros y Hy; apply Hf; right; exact Hy).
    unfold append. rewrite <- app_assoc. reflexivity.
Qed.

Lemma for_each_collect_fails {X Y : Type} (f : X -> result Y) (g : X -> Y)
  (pre post : list X) (x : X) (e : error) (acc : list Y) :
  (forall y, In y pre -> f y = Ok (g y)) -> f x = Err e ->
  for_each (fun res x => let* tmp := f x in Ok (append res tmp)) acc (pre ++ x :: post)%list
  = Err e.
Proof.
  intros Hpre Hx. rewrite for_each_app, (for_each_collect f g pre acc Hpre).
  cbn [bind for_each]. rewrite Hx. reflexivity.
Qed.

Lemma get_idx_pick (v : Value) (i : Z) :
  v.(t) = TypeArray ->
  - Z.of_nat (List.length v.(a)) <= i < Z.of_nat (List.length v.(a)) ->
  get_idx (Some v) i = Ok (nth (pick (Z.of_nat (List.length v.(a))) i) v.(a) None).
Proof.
  intros Ht Hi. unfold pick. destruct (i <? 0) eqn:E; bool_to_Z.
  - apply get_idx_negative; [exact Ht | lia | lia].
  - apply get_idx_nonneg; [exact Ht | lia].
Qed.

Lemma get_idx_outside (v : Value) (i : Z) :
  v.(t) = TypeArray ->
  i < - Z.of_nat (List.length v.(a)) \/ Z.of_nat (List.length v.(a)) <= i ->
  get_idx (Some v) i = Err (ErrIndexOutOfRange (Z.of_nat (List.length v.(a))) i).
Proof.
  intros Ht [Hi | Hi].
  - apply get_idx_too_small; [exact Ht | lia].
  - apply get_idx_too_large; [exact Ht | exact Hi].
Qed.

(** X12: an index step with two or more indexes on an array of length [L]
    returns a new array that holds, for each requested index in the order
    written, the element it addresses (negative indexes count from the end,
    repeats allowed) when every index lies in [-L, L); the first index outside
    that range makes the whole step fail with the index-out-of-range error of
    that index. *)
Theorem lookup_step_index_list
  (lib : GoLib) (root cur : option Value) (st : step) (v : Value) (idxs : list Z) :
  st.(op) = "idx" -> st.(args) = ArgsInts idxs ->
  with_key cur st = Ok (Some v) -> v.(t) = TypeArray ->
  (2 <= List.length idxs)%nat ->
  let L := Z.of_nat (List.length v.(a)) in
  ((forall i, In i idxs -> - L <= i < L) ->
   lookup_step lib root cur st
   = Ok (Next (new_array (map (fun i => nth (pick L i) v.(a) None) idxs))))
  /\ (forall pre i post,
        idxs = (pre ++ i :: post)%list ->
        (forall j, In j pre -> - L <= j < L) ->
        i < - L \/ L <= i ->
        lookup_step lib root cur st = Err (ErrIndexOutOfRange L i)).
Proof.
  intros Hop Hargs Hkey Ht Hlen L.
  assert (Hstep : lookup_step lib root cur st
                  = let* elems := for_each
                                    (fun res x => let* tmp := get_idx (Some v) x in
                                                  Ok (append res tmp)) [] idxs in
                    Ok (Next (new_array elems))).
  { unfold lookup_step. rewrite Hop, Hargs, Hkey.
    change (String.eqb "idx" "key") with false.
    change (String.eqb "idx" "idx") with true. cbn [bind assert_ints].
    replace (Z.of_nat (List.length idxs) >? 1) with true
      by (symmetry; rewrite Z.gtb_ltb; apply Z.ltb_lt; lia).
    reflexivity. }
  rewrite Hstep. split.
  - intros Hall.
    rewrite (for_each_collect (get_idx (Some v))
               (fun i => nth (pick L i) v.(a) None) idxs []).
    + reflexivity.
    + intros i Hi. apply get_idx_pick; [exact Ht | apply Hall; exact Hi].
  - intros pre i post Heq Hpre Hout. subst idxs.
    rewrite (for_each_collect_fails (get_idx (Some v))
               (fun i => nth (pick L i) v.(a) None) pre post i
               (ErrIndexOutOfRange L i) []).
    + reflexivity.
    + intros j Hj. apply get_idx_pick; [exact Ht | apply Hpre; exact Hj].
    + apply get_idx_outside; [exact Ht | exact Hout].
Qed.

Lemma lookup_step_index_list_witness :
  (mkStep "idx" EmptyString (ArgsInts [-1; 0; 0])).(op) = "idx"
  /\ with_key (Some books_doc) (mkStep "idx" EmptyString (ArgsInts [-1; 0; 0]))
     = Ok (Some books_doc)
  /\ books_doc.(t) = TypeArray
  /\ (2 <= List.length ([-1; 0; 0]%Z))%nat
  /\ lookup_step no_golib (Some books_doc) (Some books_doc)
       (mkStep "idx" EmptyString (ArgsInts [-1; 0; 0]))
     = Ok (Next (new_array (map (fun i => nth (pick 3 i) books_doc.(a) None) [-1; 0; 0]))).
Proof.
  split; [reflexivity|]. split; [reflexivity|]. split; [reflexivity|].
  split; [simpl; lia|].
  refine (proj1 (lookup_step_index_list no_golib (Some books_doc) (Some books_doc)
                   (mkStep "idx" EmptyString (ArgsInts [-1; 0; 0])) books_doc [-1; 0; 0]
                   eq_refl eq_refl eq_refl eq_refl _) _).
  - simpl. lia.
  - intros i [H | [H | [H | []]]]; subst i; simpl; lia.
Defined.

(** ** Filters on arrays *)

Lemma for_each_filter_loop (test : option Value -> result bool) (keep : option Value -> bool)
  (xs acc : list (option Value)) :
  (forall e, In e xs -> test e = Ok (keep e)) ->
  for_each (filter_loop test) acc xs = Ok (acc ++ filter keep xs)%list.
Proof.
  revert acc. induction xs as [| x rest IH]; intros acc Htest; cbn [for_each filter].
  - rewrite app_nil_r. reflexivity.
  - unfold filter_loop at 1. rewrite (Htest x) by (left; reflexivity). cbn [bind].
    destruct (keep x); cbn [bind].
    + rewrite IH by (intros y Hy; apply Htest; right; exact Hy).
      unfold append. rewrite <- app_assoc. reflexivity.
    + apply IH. intros y Hy. apply Htest. right. exact Hy.
Qed.

(** X13: a filter with a comparison or existence predicate applied to an
    array keeps exactly the elements of which the predicate holds, in their
    original order, when the predicate evaluates on every element; the result
    is flagged as an array even when it is empty. *)
Theorem get_filtered_array
  (lib : GoLib) (v : Value) (root : option Value) (flt lp fop rp : string)
  (keep : option Value -> bool) :
  v.(t) = TypeArray ->
  parse_filter flt = Ok (lp, fop, rp) ->
  String.eqb fop "=~" = false ->
  (forall e, In e v.(a) -> eval_filter lib e root lp fop rp = Ok (keep e)) ->
  get_filtered lib (Some v) root flt = Ok (true, filter keep v.(a)).
Proof.
  intros Ht Hparse Hop Hkeep. unfold get_filtered.
  rewrite Hparse. cbn [bind]. rewrite Ht, Hop.
  rewrite (for_each_filter_loop _ keep v.(a) [] Hkeep). reflexivity.
Qed.

Lemma get_filtered_array_witness :
  books_doc.(t) = TypeArray
  /\ parse_filter "@.isbn" = Ok ("@.isbn", "exists", EmptyString)
  /\ get_filtered no_golib (Some books_doc) (Some books_doc) "@.isbn"
     = Ok (true, filter has_isbn books_doc.(a)).
Proof.
  split; [reflexivity|]. split; [reflexivity|].
  refine (get_filtered_array no_golib books_doc (Some books_doc) "@.isbn"
            "@.isbn" "exists" EmptyString has_isbn eq_refl eq_refl eq_refl _).
  intros e [H | [H | [H | []]]]; subst e; reflexivity.
Defined.

Lemma filter_loop_kept (test : option Value -> result bool)
  (xs acc res : list (option Value)) :
  for_each (filter_loop test) acc xs = Ok res ->
  exists kept, res = (acc ++ kept)%list /\ forall e, In e kept -> test e = Ok true.
Proof.
  revert acc. induction xs as [| x rest IH]; intros acc H; cbn [for_each] in H.
  - injection H as H. subst res. exists []. rewrite app_nil_r.
    split; [reflexivity | intros e []].
  - unfold filter_loop at 1 in H.
    destruct (test x) as [[|] | err | pn] eqn:Hx; cbn [bind] in H; try discriminate.
    + destruct (IH _ H) as (kept & Hres & Hkept). exists (x :: kept). split.
      * rewrite Hres. unfold append. rewrite <- app_assoc. reflexivity.
      * intros e [He | He]; [subst e; exact Hx | apply Hkept; exact He].
    + exact (IH _ H).
Qed.

Lemma filter_loop_all_kept (test : option Value -> result bool)
  (kept acc : list (option Value)) :
  (forall e, In e kept -> test e = Ok true) ->
  for_each (filter_loop test) acc kept = Ok (acc ++ kept)%list.
Proof.
  revert acc. induction kept as [| x rest IH]; intros acc H; cbn [for_each].
  - rewrite app_nil_r. reflexivity.
  - unfold filter_loop at 1. rewrite (H x) by (left; reflexivity). cbn [bind].
    rewrite IH by (intros e He; apply H; right; exact He).
    unfold append. rewrite <- app_assoc. reflexivity.
Qed.

Lemma filter_loop_again (test : option Value -> result bool) (xs res : list (option Value)) :
  for_each (filter_loop test) [] xs = Ok res ->
  for_each (filter_loop test) [] res = Ok res.
Proof.
  intros H. destruct (filter_loop_kept test xs [] res H) as (kept & Hres & Hkept).
  cbn [app] in Hres. subst res. exact (filter_loop_all_kept test kept [] Hkept).
Qed.

Lemma lookup_step_bare_filter (lib : GoLib) (root : option Value) (u : Value) (st : step) :
  st.(op) = "filter" -> st.(key) = EmptyString ->
  lookup_step lib root (Some u) st
  = let* flt := assert_string st.(args) in
    let* (isArr, ret) := get_filtered lib (Some u) root flt in
    if isArr then Ok (Next (new_array ret))
    else if Z.of_nat (List.length ret) =? 0 then Ok (Return None)
    else let* obj := index_at ret 0 in Ok (Next obj).
Proof.
  intros Hop Hkey. unfold lookup_step. rewrite Hop, Hkey. reflexivity.
Qed.

(** X14: a filter step with an empty key is idempotent, whatever its
    predicate (a regular expression included) and whatever the current value:
    when the step succeeds and the walk goes on with a value [w], the same
    step applied to [w] gives [w] again. *)
Theorem lookup_step_filter_idempotent
  (lib : GoLib) (root cur w : option Value) (st : step) :
  st.(op) = "filter" -> st.(key) = EmptyString ->
  lookup_step lib root cur st = Ok (Next w) ->
  lookup_step lib root w st = Ok (Next w).
Proof.
  intros Hop Hkey H. pose proof H as H0.
  destruct cur as [v |];
    [| unfold lookup_step in H; rewrite Hop, Hkey in H; discriminate].
  rewrite (lookup_step_bare_filter lib root v st Hop Hkey) in H.
  destruct st.(args) as [| | | | flt] eqn:Hargs; try discriminate.
  cbn [assert_string bind] in H. unfold get_filtered in H.
  destruct (parse_filter flt) as [[[lp fop] rp] | err | pn] eqn:Hparse; try discriminate.
  cbn [bind] in H.
  destruct v.(t) eqn:Ht; try discriminate.
  - (* an object: the value itself goes on *)
    assert (Hw : w = Some v).
    { destruct (String.eqb fop "=~").
      - destruct (regFilterCompile lib rp) as [pat | err | pn]; try discriminate.
        cbn [bind] in H.
        destruct (eval_reg_filter lib (Some v) root lp pat) as [[|] | err | pn];
          try discriminate; cbn in H; congruence.
      - destruct (eval_filter lib (Some v) root lp fop rp) as [[|] | err | pn];
          try discriminate; cbn in H; congruence. }
    subst w. exact H0.
  - (* an array: the kept elements are kept again *)
    assert (Hagain : forall test res,
               for_each (filter_loop test) [] v.(a) = Ok res ->
               w = new_array res ->
               (forall pat, String.eqb fop "=~" = true -> regFilterCompile lib rp = Ok pat ->
                            test = (fun tmp => eval_reg_filter lib tmp root lp pat)) ->
               (String.eqb fop "=~" = false ->
                test = (fun tmp => eval_filter lib tmp root lp fop rp)) ->
               lookup_step lib root w st = Ok (Next w)).
    { intros test res Hloop Hw Hre Hcmp. subst w. unfold new_array.
      rewrite (lookup_step_bare_filter lib root _ st Hop Hkey), Hargs.
      cbn [assert_string bind]. unfold get_filtered. rewrite Hparse. cbn [bind t a].
      destruct (String.eqb fop "=~") eqn:Eop.
      - destruct (regFilterCompile lib rp) as [pat | err | pn] eqn:Hpat.
        + cbn [bind]. rewrite <- (Hre pat eq_refl eq_refl).
          rewrite (filter_loop_again test v.(a) res Hloop). reflexivity.
        + exfalso. clear - H. cbn [bind] in H. discriminate.
        + exfalso. clear - H. cbn [bind] in H. discriminate.
      - rewrite <- (Hcmp eq_refl).
        rewrite (filter_loop_again test v.(a) res Hloop). reflexivity. }
    destruct (String.eqb fop "=~") eqn:Eop.
    + destruct (regFilterCompile lib rp) as [pat | err | pn] eqn:Hpat; try discriminate.
      cbn [bind] in H.
      destruct (for_each (filter_loop (fun tmp => eval_reg_filter lib tmp root lp pat))
                  [] v.(a)) as [res | err | pn] eqn:Hloop; try discriminate.
      cbn [bind] in H. injection H as H.
      apply (Hagain _ res Hloop (eq_sym H)).
      * intros pat' _ Hpat'. injection Hpat' as Hpat'. subst pat'. reflexivity.
      * intros E. discriminate.
    + destruct (for_each (filter_loop (fun tmp => eval_filter lib tmp root lp fop rp))
                  [] v.(a)) as [res | err | pn] eqn:Hloop; try discriminate.
      cbn [bind] in H. injection H as H.
      apply (Hagain _ res Hloop (eq_sym H)).
      * intros pat E. discriminate.
      * intros _. reflexivity.
Qed.

Lemma lookup_step_filter_idempotent_witness :
  Compile "$[?(@.isbn)][?(@.isbn)]"
  = Ok (mkCompiled "$[?(@.isbn)][?(@.isbn)]"
          [mkStep "filter" EmptyString (ArgsString "@.isbn");
           mkStep "filter" EmptyString (ArgsString "@.isbn")])
  /\ lookup_step no_golib (Some books_doc) (Some books_doc)
       (mkStep "filter" EmptyString (ArgsString "@.isbn"))
     = Ok (Next (new_array (filter has_isbn books_doc.(a))))
  /\ lookup_step no_golib (Some books_doc) (new_array (filter has_isbn books_doc.(a)))
       (mkStep "filter" EmptyString (ArgsString "@.isbn"))
     = Ok (Next (new_array (filter has_isbn books_doc.(a)))).
Proof.
  split; [vm_compute; reflexivity|]. split; [vm_compute; reflexivity|].
  apply (lookup_step_filter_idempotent no_golib (Some books_doc) (Some books_doc)
           (new_array (filter has_isbn books_doc.(a)))
           (mkStep "filter" EmptyString (ArgsString "@.isbn")) eq_refl eq_refl).
  vm_compute. reflexivity.
Defined.

(** ** Predicates *)

Lemma parse_filter_body_field (l o r tmp : string) (stg : Z) (emb : bool) (c : ascii)
  (idx : Z) :
  field_char c = true ->
  parse_filter_body (mkScan l o r tmp stg emb) (idx, rune_of c)
  = Ok (mkScan l o r (tmp ++ String c EmptyString) stg emb).
Proof.
  intros Hc. unfold field_char in Hc.
  apply andb_prop in Hc. destruct Hc as [Hc Hq].
  apply andb_prop in Hc. destruct Hc as [Hasc Hsp].
  apply negb_true_iff in Hq, Hsp. unfold is_ascii in Hasc. apply Nat.ltb_lt in Hasc.
  unfold parse_filter_body. rewrite !rune_of_inj, Hq, Hsp.
  rewrite (string_of_rune_low c Hasc). reflexivity.
Qed.

Lemma parse_filter_body_quoted (l o r tmp : string) (stg : Z) (c : ascii) (idx : Z) :
  quoted_char c = true ->
  parse_filter_body (mkScan l o r tmp stg true) (idx, rune_of c)
  = Ok (mkScan l o r (tmp ++ String c EmptyString) stg true).
Proof.
  intros Hc. unfold quoted_char in Hc.
  apply andb_prop in Hc. destruct Hc as [Hasc Hq].
  apply negb_true_iff in Hq. unfold is_ascii in Hasc. apply Nat.ltb_lt in Hasc.
  unfold parse_filter_body. rewrite !rune_of_inj, Hq.
  rewrite (string_of_rune_low c Hasc).
  destruct (Ascii.eqb c " "); reflexivity.
Qed.

Lemma scan_field (text : string) (l o r tmp : string) (stg : Z) (emb : bool) (idx : Z)
  (tail : string) :
  all_chars field_char text = true ->
  for_each parse_filter_body (mkScan l o r tmp stg emb) (range_go idx 0 (text ++ tail))
  = for_each parse_filter_body (mkScan l o r (tmp ++ text) stg emb)
      (range_go (idx + len text) 0 tail).
Proof.
  revert tmp idx. induction text as [| c text IH]; intros tmp idx Hall.
  - rewrite append_empty_r. unfold len. simpl. rewrite Z.add_0_r. reflexivity.
  - simpl in Hall. apply andb_prop in Hall. destruct Hall as [Hc Hall].
    assert (Hasc : is_ascii c = true).
    { unfold field_char in Hc. apply andb_prop in Hc. destruct Hc as [Hc _].
      apply andb_prop in Hc. destruct Hc as [Hc _]. exact Hc. }
    change (String c text ++ tail) with (String c (text ++ tail)).
    rewrite (range_go_cons_ascii c _ idx Hasc). cbn [for_each].
    rewrite (parse_filter_body_field l o r tmp stg emb c idx Hc). cbn [bind].
    rewrite (IH (tmp ++ String c EmptyString) (idx + 1) Hall).
    rewrite append_assoc_s. cbn [String.append].
    replace (idx + 1 + len text) with (idx + len (String c text))
      by (unfold len; simpl String.length; lia).
    reflexivity.
Qed.

Lemma scan_quoted (text : string) (l o r tmp : string) (stg : Z) (idx : Z) (tail : string) :
  all_chars quoted_char text = true ->
  for_each parse_filter_body (mkScan l o r tmp stg true) (range_go idx 0 (text ++ tail))
  = for_each parse_filter_body (mkScan l o r (tmp ++ text) stg true)
      (range_go (idx + len text) 0 tail).
Proof.
  revert tmp idx. induction text as [| c text IH]; intros tmp idx Hall.
  - rewrite append_empty_r. unfold len. simpl. rewrite Z.add_0_r. reflexivity.
  - simpl in Hall. apply andb_prop in Hall. destruct Hall as [Hc Hall].
    assert (Hasc : is_ascii c = true).
    { unfold quoted_char in Hc. apply andb_prop in Hc. destruct Hc as [Hc _]. exact Hc. }
    change (String c text ++ tail) with (String c (text ++ tail)).
    rewrite (range_go_cons_ascii c _ idx Hasc). cbn [for_each].
    rewrite (parse_filter_body_quoted l o r tmp stg c idx Hc). cbn [bind].
    rewrite (IH (tmp ++ String c EmptyString) (idx + 1) Hall).
    rewrite append_assoc_s. cbn [String.append].
    replace (idx + 1 + len text) with (idx + len (String c text))
      by (unfold len; simpl String.length; lia).
    reflexivity.
Qed.

(** The scan up to and including the second separating space. *)
Lemma scan_two_fields (lp op tail : string) :
  all_chars field_char lp = true -> all_chars field_char op = true ->
  for_each parse_filter_body
    (mkScan EmptyString EmptyString EmptyString EmptyString 0 false)
    (range_string (lp ++ " " ++ op ++ " " ++ tail))
  = for_each parse_filter_body (mkScan lp op EmptyString EmptyString 2 false)
      (range_go (len lp + len op + 2) 0 tail).
Proof.
  intros Hlp Hop. unfold range_string.
  rewrite (scan_field lp _ _ _ _ _ _ 0 _ Hlp).
  change (" " ++ op ++ " " ++ tail) with (String " " (op ++ " " ++ tail)).
  rewrite (range_go_cons_ascii " " _ _ eq_refl). cbn [for_each].
  change (EmptyString ++ lp) with lp.
  change (parse_filter_body (mkScan EmptyString EmptyString EmptyString lp 0 false)
            (0 + len lp, rune_of " "))
    with (Ok (mkScan lp EmptyString EmptyString EmptyString 1 false)).
  cbn [bind].
  rewrite (scan_field op _ _ _ _ _ _ _ _ Hop).
  change (" " ++ tail) with (String " " tail).
  rewrite (range_go_cons_ascii " " _ _ eq_refl). cbn [for_each].
  change (EmptyString ++ op) with op.
  change (parse_filter_body (mkScan lp EmptyString EmptyString op 1 false)
            (0 + len lp + 1 + len op, rune_of " "))
    with (Ok (mkScan lp op EmptyString EmptyString 2 false)).
  cbn [bind].
  replace (0 + len lp + 1 + len op + 1) with (len lp + len op + 2) by lia.
  reflexivity.
Qed.

(** X15: a predicate made of three fields separated by single spaces parses
    into exactly these fields (left operand, operator, right operand); a
    single non-empty field parses as an existence test on it. *)
Theorem parse_filter_fields (lp op rp : string) :
  all_chars field_char lp = true -> all_chars field_char op = true ->
  all_chars field_char rp = true ->
  parse_filter (lp ++ " " ++ op ++ " " ++ rp) = Ok (lp, op, rp)
  /\ (lp <> EmptyString -> parse_filter lp = Ok (lp, "exists", EmptyString)).
Proof.
  intros Hlp Hop Hrp. split.
  - unfold parse_filter. rewrite (scan_two_fields lp op rp Hlp Hop).
    rewrite <- (append_empty_r rp) at 1.
    rewrite (scan_field rp _ _ _ _ _ _ _ _ Hrp). cbn [range_go for_each bind].
    cbn [f_tmp f_stage f_lp f_op f_rp]. change (EmptyString ++ rp) with rp.
    destruct rp; reflexivity.
  - intros Hne. unfold parse_filter, range_string.
    rewrite <- (append_empty_r lp) at 1.
    rewrite (scan_field lp _ _ _ _ _ _ _ _ Hlp). cbn [range_go for_each bind].
    cbn [f_tmp f_stage f_lp f_op f_rp]. change (EmptyString ++ lp) with lp.
    destruct lp; [contradiction | reflexivity].
Qed.

Lemma parse_filter_fields_witness :
  all_chars field_char "@.price" = true
  /\ parse_filter "@.price <= $.expensive" = Ok ("@.price", "<=", "$.expensive")
  /\ parse_filter "@.price" = Ok ("@.price", "exists", EmptyString).
Proof.
  split; [reflexivity|].
  destruct (parse_filter_fields "@.price" "<=" "$.expensive" eq_refl eq_refl eq_refl)
    as [H3 _].
  destruct (parse_filter_fields "@.price" "<=" EmptyString eq_refl eq_refl eq_refl)
    as [_ H1].
  split; [exact H3 | apply H1; discriminate].
Defined.

(** X16: a third unquoted space is an error: whatever follows three fields
    and a space, [parse_filter] fails and reports the byte offset of that
    space. *)
Theorem parse_filter_fourth_field (lp op rp rest : string) :
  all_chars field_char lp = true -> all_chars field_char op = true ->
  all_chars field_char rp = true ->
  parse_filter (lp ++ " " ++ op ++ " " ++ rp ++ " " ++ rest)
  = Err (ErrInvalidChar (len lp + len op + len rp + 2)).
Proof.
  intros Hlp Hop Hrp. unfold parse_filter.
  rewrite (scan_two_fields lp op (rp ++ " " ++ rest) Hlp Hop).
  rewrite (scan_field rp _ _ _ _ _ _ _ _ Hrp).
  change (" " ++ rest) with (String " " rest).
  rewrite (range_go_cons_ascii " " _ _ eq_refl). cbn [for_each].
  change (EmptyString ++ rp) with rp.
  change (parse_filter_body (mkScan lp op EmptyString rp 2 false)
            (len lp + len op + 2 + len rp, rune_of " "))
    with (Err (A:=filter_scan) (ErrInvalidChar (len lp + len op + 2 + len rp))).
  cbn [bind].
  replace (len lp + len op + 2 + len rp) with (len lp + len op + len rp + 2) by lia.
  reflexivity.
Qed.

Lemma parse_filter_fourth_field_witness :
  all_chars field_char "@.a" = true
  /\ parse_filter "@.a == 1 && @.b == 2" = Err (ErrInvalidChar 8).
Proof.
  split; [reflexivity|].
  exact (parse_filter_fourth_field "@.a" "==" "1" "&& @.b == 2" eq_refl eq_refl eq_refl).
Defined.

(** X17: a right operand between single quotes keeps its spaces: the
    predicate parses into the left operand, the operator and the text between
    the quotes. *)
Theorem parse_filter_quoted_operand (lp op text : string) :
  all_chars field_char lp = true -> all_chars field_char op = true ->
  all_chars quoted_char text = true ->
  parse_filter (lp ++ " " ++ op ++ " " ++ "'" ++ text ++ "'") = Ok (lp, op, text).
Proof.
  intros Hlp Hop Htext. unfold parse_filter.
  rewrite (scan_two_fields lp op ("'" ++ text ++ "'") Hlp Hop).
  change ("'" ++ text ++ "'") with (String "'" (text ++ "'")).
  rewrite (range_go_cons_ascii "'" _ _ eq_refl). cbn [for_each].
  change (parse_filter_body (mkScan lp op EmptyString EmptyString 2 false)
            (len lp + len op + 2, rune_of "'"))
    with (Ok (mkScan lp op EmptyString EmptyString 2 true)).
  cbn [bind].
  rewrite (scan_quoted text _ _ _ _ _ _ _ Htext).
  change (range_go (len lp + len op + 2 + 1 + len text) 0 "'")
    with [(len lp + len op + 2 + 1 + len text, rune_of "'")].
  cbn [for_each]. change (EmptyString ++ text) with text.
  change (parse_filter_body (mkScan lp op EmptyString text 2 true)
            (len lp + len op + 2 + 1 + len text, rune_of "'"))
    with (Ok (mkScan lp op text EmptyString 2 true)).
  reflexivity.
Qed.

Lemma parse_filter_quoted_operand_witness :
  all_chars quoted_char "Nigel Rees" = true
  /\ parse_filter "@.author == 'Nigel Rees'" = Ok ("@.author", "==", "Nigel Rees").
Proof.
  split; [reflexivity|].
  exact (parse_filter_quoted_operand "@.author" "==" "Nigel Rees" eq_refl eq_refl eq_refl).
Defined.

(** ** Regular expression literals *)

Lemma runes_ascii (text : string) (idx : Z) :
  all_chars is_ascii text = true ->
  map snd (range_go idx 0 text) = map rune_of (list_ascii_of_string text).
Proof.
  revert idx. induction text as [| c r IH]; intros idx Hall.
  - reflexivity.
  - simpl in Hall. apply andb_prop in Hall. destruct Hall as [Hc Hr].
    rewrite (range_go_cons_ascii c r idx Hc). cbn [map snd list_ascii_of_string].
    rewrite (IH (idx + 1) Hr). reflexivity.
Qed.

Lemma concat_runes_ascii (text : string) :
  all_chars is_ascii text = true ->
  String.concat EmptyString (map string_of_rune (map rune_of (list_ascii_of_string text)))
  = text.
Proof.
  induction text as [| c r IH]; intros Hall.
  - reflexivity.
  - simpl in Hall. apply andb_prop in Hall. destruct Hall as [Hc Hr].
    unfold is_ascii in Hc. apply Nat.ltb_lt in Hc.
    cbn [list_ascii_of_string map]. cbn [String.concat].
    rewrite (string_of_rune_low c Hc).
    destruct (map string_of_rune (map rune_of (list_ascii_of_string r))) eqn:E.
    + destruct r; [reflexivity | discriminate].
    + rewrite (IH Hr). reflexivity.
Qed.

Lemma list_ascii_app (u v : string) :
  list_ascii_of_string (u ++ v)
  = (list_ascii_of_string u ++ list_ascii_of_string v)%list.
Proof. induction u as [| c u IH]; simpl; [reflexivity | rewrite IH; reflexivity]. Qed.

Lemma length_list_ascii (u : string) :
  List.length (list_ascii_of_string u) = String.length u.
Proof. induction u as [| c u IH]; simpl; [reflexivity | rewrite IH; reflexivity]. Qed.

(** X18: a rule of the form [/p/] with a non-empty ASCII pattern [p] is
    accepted, and what reaches [regexp.Compile] is [p] itself, the two
    delimiters removed; the outcome is the one of [regexp.Compile]. *)
Theorem regFilterCompile_delimited (lib : GoLib) (p : string) :
  all_chars is_ascii p = true -> p <> EmptyString ->
  regFilterCompile lib ("/" ++ p ++ "/")
  = match regexp_Compile lib p with
    | Some pat => Ok (Some pat)
    | None => Err ErrRegexpCompile
    end.
Proof.
  intros Hp Hne. unfold regFilterCompile, range_string.
  assert (Hall : all_chars is_ascii ("/" ++ p ++ "/") = true).
  { change ("/" ++ p ++ "/") with (String "/" (p ++ "/")).
    cbn [all_chars]. rewrite all_chars_app, Hp. reflexivity. }
  rewrite (runes_ascii _ 0 Hall).
  change ("/" ++ p ++ "/") with (String "/" (p ++ "/")).
  cbn [list_ascii_of_string map]. rewrite list_ascii_app, map_app.
  cbn [list_ascii_of_string map].
  set (body := map rune_of (list_ascii_of_string p)).
  assert (Hlen : List.length body = String.length p)
    by (subst body; rewrite length_map; apply length_list_ascii).
  assert (Hpos : (1 <= String.length p)%nat) by (destruct p; [contradiction | simpl; lia]).
  cbn [List.length]. rewrite length_app. cbn [List.length]. rewrite Hlen.
  destruct (Z.of_nat (S (String.length p + 1)) <=? 2) eqn:E; [bool_to_Z; lia|].
  change (index_at (rune_of "/" :: (body ++ [rune_of "/"])%list) 0)
    with (Ok (A:=rune) (rune_of "/")).
  cbn [bind].
  assert (Hlast : last_at (rune_of "/" :: (body ++ [rune_of "/"])%list) = Ok (rune_of "/")).
  { unfold last_at.
    rewrite (index_at_in_range _ _ 0)
      by (cbn [List.length]; rewrite !length_app; cbn [List.length]; lia).
    cbn [List.length]. rewrite length_app. cbn [List.length]. rewrite Hlen.
    replace (Z.to_nat (Z.of_nat (S (String.length p + 1)) - 1))
      with (S (List.length body)) by lia.
    cbn [nth]. rewrite nth_middle. reflexivity. }
  rewrite Hlast. cbn [bind].
  change (negb (rune_of "/" =? rune_of "/") || negb (rune_of "/" =? rune_of "/")) with false.
  cbn iota.
  assert (Hslice : slice_at (rune_of "/" :: (body ++ [rune_of "/"])%list) 1
                     (Z.of_nat (S (String.length p + 1)) - 1) = Ok body).
  { unfold slice_at. cbn [List.length]. rewrite length_app. cbn [List.length]. rewrite Hlen.
    destruct ((1 <? 0) || (Z.of_nat (S (String.length p + 1)) - 1 <? 1)
              || (Z.of_nat (S (String.length p + 1))
                  <? Z.of_nat (S (String.length p + 1)) - 1)) eqn:E2;
      [split_bools; lia|].
    replace (Z.to_nat (Z.of_nat (S (String.length p + 1)) - 1 - 1))
      with (List.length body) by lia.
    change (Z.to_nat 1) with 1%nat. cbn [skipn].
    rewrite firstn_app, Nat.sub_diag, firstn_all. cbn [firstn].
    rewrite app_nil_r. reflexivity. }
  rewrite Hslice. cbn [bind]. subst body.
  rewrite (concat_runes_ascii p Hp). reflexivity.
Qed.

Lemma regFilterCompile_delimited_witness :
  all_chars is_ascii ".*REES" = true
  /\ regFilterCompile no_golib "/.*REES/"
     = match regexp_Compile no_golib ".*REES" with
       | Some pat => Ok (Some pat)
       | None => Err ErrRegexpCompile
       end.
Proof.
  split; [reflexivity|].
  refine (regFilterCompile_delimited no_golib ".*REES" eq_refl _). discriminate.
Defined.

(** X19: a rule that does not end in [/] is rejected before any pattern is
    compiled: an ASCII rule of three bytes or more whose last byte is not the
    delimiter fails with the syntax error, so a literal with trailing flags
    (as in [/p/i]) is never accepted. *)
Theorem regFilterCompile_trailing (lib : GoLib) (body : string) (c : ascii) :
  all_chars is_ascii body = true -> is_ascii c = true ->
  (2 <= String.length body)%nat -> c <> "/"%char ->
  regFilterCompile lib (body ++ String c EmptyString) = Err ErrRegSyntax.
Proof.
  intros Hbody Hc Hlen Hnot. unfold regFilterCompile, range_string.
  assert (Hall : all_chars is_ascii (body ++ String c EmptyString) = true).
  { rewrite all_chars_app, Hbody. cbn [all_chars]. rewrite Hc. reflexivity. }
  rewrite (runes_ascii _ 0 Hall). rewrite list_ascii_app, map_app.
  cbn [list_ascii_of_string map].
  set (front := map rune_of (list_ascii_of_string body)).
  assert (Hfront : List.length front = String.length body)
    by (subst front; rewrite length_map; apply length_list_ascii).
  rewrite length_app. cbn [List.length]. rewrite Hfront.
  destruct (Z.of_nat (String.length body + 1) <=? 2) eqn:E; [bool_to_Z; lia|].
  destruct front as [| f0 front']; [simpl in Hfront; lia|].
  change (index_at ((f0 :: front') ++ [rune_of c])%list 0) with (Ok (A:=rune) f0).
  cbn [bind].
  assert (Hlast : last_at ((f0 :: front') ++ [rune_of c])%list = Ok (rune_of c)).
  { unfold last_at.
    rewrite (index_at_in_range _ _ 0) by (rewrite !length_app; cbn [List.length]; lia).
    rewrite length_app. cbn [List.length].
    replace (Z.to_nat (Z.of_nat (S (List.length front') + 1) - 1))
      with (List.length (f0 :: front')) by (cbn [List.length]; lia).
    rewrite nth_middle. reflexivity. }
  rewrite Hlast. cbn [bind]. rewrite (rune_of_inj c "/").
  destruct (Ascii.eqb c "/") eqn:E2; [apply Ascii.eqb_eq in E2; contradiction|].
  cbn [negb]. rewrite orb_true_r. reflexivity.
Qed.

Lemma regFilterCompile_trailing_witness :
  all_chars is_ascii "/.*REES/" = true
  /\ regFilterCompile no_golib "/.*REES/i" = Err ErrRegSyntax.
Proof.
  split; [reflexivity|].
  refine (regFilterCompile_trailing no_golib "/.*REES/" "i" eq_refl eq_refl _ _).
  - simpl. lia.
  - discriminate.
Defined.

(** ** The payload of the steps of a compiled path *)

(** X20: every step of a successfully compiled path carries the payload of
    its operator: a key step no arguments or a key list that is not empty,
    an index step an index list that is not empty, a slice step its two
    bounds, a filter step a predicate text or nothing. *)
Theorem Compile_steps_shaped (jpath : string) (c : Compiled) :
  Compile jpath = Ok c -> forallb shaped c.(steps) = true.
Proof.
  intros H. destruct (Compile_steps_of_tokens jpath c H) as (tokens & _ & Hsts).
  exact (compile_steps_shaped _ _ Hsts).
Qed.

Lemma Compile_steps_shaped_witness :
  Compile "$.store.book[0,1]['title','price']"
  = Ok (mkCompiled "$.store.book[0,1]['title','price']"
          [mkStep "key" "store" ArgsNil; mkStep "idx" "book" (ArgsInts [0; 1]);
           mkStep "key" EmptyString (ArgsStrings ["title"; "price"])])
  /\ forallb shaped
       [mkStep "key" "store" ArgsNil; mkStep "idx" "book" (ArgsInts [0; 1]);
        mkStep "key" EmptyString (ArgsStrings ["title"; "price"])] = true.
Proof.
  assert (H : Compile "$.store.book[0,1]['title','price']"
              = Ok (mkCompiled "$.store.book[0,1]['title','price']"
                      [mkStep "key" "store" ArgsNil; mkStep "idx" "book" (ArgsInts [0; 1]);
                       mkStep "key" EmptyString (ArgsStrings ["title"; "price"])]))
    by (vm_compute; reflexivity).
  split; [exact H|].
  exact (Compile_steps_shaped _ _ H).
Defined.

(** ** Errors a compiled path cannot raise *)

Ltac break_match :=
  repeat match goal with
         | |- context [match ?x with _ => _ end] => destruct x
         end.

Lemma unstructural_bind {A B : Type} (r : result A) (k : A -> result B) :
  unstructural r -> (forall x, unstructural (k x)) -> unstructural (bind r k).
Proof.
  intros Hr Hk. destruct r as [x | e | pn]; cbn [bind]; [apply Hk | exact Hr | exact I].
Qed.

Lemma unstructural_for_each {S X : Type} (body : S -> X -> result S) (xs : list X) :
  (forall st x, unstructural (body st x)) ->
  forall st, unstructural (for_each body st xs).
Proof.
  intros Hbody. induction xs as [| x rest IH]; intros st; cbn [for_each].
  - exact I.
  - apply unstructural_bind; [apply Hbody | exact IH].
Qed.

Lemma unstructural_index_at {A : Type} (xs : list A) (i : Z) : unstructural (index_at xs i).
Proof. unfold index_at. break_match; exact I. Qed.

Lemma unstructural_slice_at {A : Type} (xs : list A) (lo hi : Z) :
  unstructural (slice_at xs lo hi).
Proof. unfold slice_at. break_match; exact I. Qed.

Lemma unstructural_get_key (obj : option Value) (k : string) : unstructural (get_key obj k).
Proof. unfold get_key. break_match; simpl; auto. Qed.

Lemma unstructural_get_idx (obj : option Value) (i : Z) : unstructural (get_idx obj i).
Proof.
  unfold get_idx. destruct obj as [v |]; [| exact I].
  destruct v.(t); try reflexivity.
  cbv zeta. break_ifs; try reflexivity; apply unstructural_index_at.
Qed.

Lemma unstructural_get_range (obj : option Value) (frm to : option Z) :
  unstructural (get_range obj frm to).
Proof.
  unfold get_range. destruct obj as [v |]; [| exact I].
  destruct v.(t); try reflexivity.
  cbv zeta. break_ifs; try reflexivity;
    (apply unstructural_bind; [apply unstructural_slice_at | intros; exact I]).
Qed.

Lemma unstructural_last_at (xs : list string) : unstructural (last_at xs).
Proof. unfold last_at. apply unstructural_index_at. Qed.

Lemma unstructural_first_byte_is (s0 : string) (c : ascii) :
  unstructural (first_byte_is s0 c).
Proof. unfold first_byte_is. break_match; exact I. Qed.

Lemma unstructural_tokenize_flush (tokens : list string) (token : string) :
  unstructural (tokenize_flush tokens token).
Proof.
  unfold tokenize_flush. destruct (negb (String.eqb token "*")); [exact I|].
  apply unstructural_bind; [apply unstructural_last_at | intros top].
  destruct (negb (String.eqb top "*")); exact I.
Qed.

Lemma unstructural_tokenize_body (st : list string * string) (ix : Z * rune) :
  unstructural (tokenize_body st ix).
Proof.
  destruct st as [tokens token], ix as [idx x]. unfold tokenize_body. cbv zeta.
  repeat match goal with
         | |- unstructural (if ?b then _ else _) => destruct b
         | |- unstructural (Ok _) => exact I
         | |- unstructural (Err _) => reflexivity
         | |- unstructural (bind (last_at _) _) =>
             apply unstructural_bind; [apply unstructural_last_at | intros]
         | |- unstructural (bind (first_byte_is _ _) _) =>
             apply unstructural_bind; [apply unstructural_first_byte_is | intros]
         end.
Qed.

Lemma unstructural_tokenize (query : string) : unstructural (tokenize query).
Proof.
  unfold tokenize. apply unstructural_bind.
  - apply unstructural_for_each. intros st ix. apply unstructural_tokenize_body.
  - intros [tokens token].
    repeat match goal with
           | |- unstructural (if ?b then _ else _) => destruct b
           | |- unstructural (Ok _) => exact I
           | |- unstructural (bind (first_byte_is _ _) _) =>
               apply unstructural_bind; [apply unstructural_first_byte_is | intros]
           | |- unstructural (tokenize_flush _ _) => apply unstructural_tokenize_flush
           end.
Qed.

Lemma unstructural_filter_path_body (xobj : option Value) (tok : string) :
  unstructural (filter_path_body xobj tok).
Proof.
  unfold filter_path_body. break_ifs; try reflexivity.
  - apply unstructural_get_key.
  - unfold assert_ints. destruct (p_args (parse_token tok)); try exact I.
    cbn [bind]. break_ifs; try reflexivity.
    apply unstructural_bind; [apply unstructural_get_key | intros x].
    apply unstructural_bind; [apply unstructural_index_at | intros i].
    apply unstructural_get_idx.
Qed.

Lemma unstructural_get_lp_v (obj root : option Value) (lp : string) :
  unstructural (get_lp_v obj root lp).
Proof.
  assert (Hpath : forall o p, unstructural (filter_get_from_explicit_path o p)).
  { intros o p. unfold filter_get_from_explicit_path.
    apply unstructural_bind; [apply unstructural_tokenize | intros tokens].
    apply unstructural_bind; [apply unstructural_index_at | intros head].
    break_ifs; [reflexivity|].
    apply unstructural_for_each. intros st x. apply unstructural_filter_path_body. }
  unfold get_lp_v. break_ifs; try apply Hpath. exact I.
Qed.

Lemma unstructural_parse_filter (filter : string) : unstructural (parse_filter filter).
Proof.
  unfold parse_filter. apply unstructural_bind.
  - apply unstructural_for_each. intros st [idx c].
    unfold parse_filter_body. break_ifs; simpl; auto.
  - intros st. break_ifs; exact I.
Qed.

Section Unstructural.

Variable lib : GoLib.

Lemma unstructural_regFilterCompile (rule : string) :
  unstructural (regFilterCompile lib rule).
Proof.
  unfold regFilterCompile. cbv zeta. break_ifs; try reflexivity.
  apply unstructural_bind; [apply unstructural_index_at | intros first].
  apply unstructural_bind; [apply unstructural_index_at | intros last].
  break_ifs; try reflexivity.
  apply unstructural_bind; [apply unstructural_slice_at | intros inner].
  break_match; simpl; auto.
Qed.

Lemma unstructural_field_s (v : option Value) : unstructural (field_s v).
Proof. destruct v; exact I. Qed.

Lemma unstructural_Value_Type (v : option Value) : unstructural (Value_Type v).
Proof. destruct v; exact I. Qed.

Lemma unstructural_eval_reg_filter (obj root : option Value) (lp : string)
  (pat : option (Regexp lib)) :
  unstructural (eval_reg_filter lib obj root lp pat).
Proof.
  unfold eval_reg_filter. destruct pat as [pat |]; [| reflexivity].
  apply unstructural_bind; [apply unstructural_get_lp_v | intros lp_v].
  apply unstructural_bind; [apply unstructural_Value_Type | intros ty].
  destruct ty; try reflexivity.
  apply unstructural_bind; [apply unstructural_field_s | intros; exact I].
Qed.

Lemma unstructural_isNumber (v : option Value) : unstructural (isNumber lib v).
Proof.
  unfold isNumber.
  apply unstructural_bind; [apply unstructural_Value_Type | intros ty].
  destruct ty; try exact I.
  apply unstructural_bind; [apply unstructural_field_s | intros; exact I].
Qed.

Lemma unstructural_cmp_any (obj1 obj2 : option Value) (op0 : string) :
  unstructural (cmp_any lib obj1 obj2 op0).
Proof.
  unfold cmp_any. destruct (negb (is_cmp_op op0)); [reflexivity|].
  apply unstructural_bind; [apply unstructural_isNumber | intros n1].
  apply unstructural_bind.
  { destruct n1; [apply unstructural_isNumber | exact I]. }
  intros both.
  apply unstructural_bind; [apply unstructural_field_s | intros s1].
  apply unstructural_bind; [apply unstructural_field_s | intros s2].
  cbv zeta. break_match; simpl; auto.
Qed.

Lemma unstructural_eval_filter (obj root : option Value) (lp op0 rp : string) :
  unstructural (eval_filter lib obj root lp op0 rp).
Proof.
  unfold eval_filter.
  assert (Hig : forall r : result (option Value), unstructural (ignore_err r))
    by (intros [x | e | pn]; exact I).
  apply unstructural_bind; [apply Hig | intros lp_v].
  destruct (String.eqb op0 "exists"); [exact I|].
  destruct (String.eqb op0 "=~"); [reflexivity|].
  apply unstructural_bind; [apply Hig | intros rp_v]. apply unstructural_cmp_any.
Qed.

Lemma unstructural_get_filtered (obj root : option Value) (filter : string) :
  unstructural (get_filtered lib obj root filter).
Proof.
  unfold get_filtered.
  apply unstructural_bind; [apply unstructural_parse_filter | intros [[lp fop] rp]].
  destruct obj as [v |]; [| exact I].
  assert (Hloop : forall test xs acc,
             (forall e, unstructural (test e)) ->
             unstructural (for_each (filter_loop test) acc xs)).
  { intros test xs acc Htest. apply unstructural_for_each. intros st x.
    unfold filter_loop. apply unstructural_bind; [apply Htest | intros ok].
    destruct ok; exact I. }
  destruct v.(t); try reflexivity.
  - destruct (String.eqb fop "=~").
    + apply unstructural_bind; [apply unstructural_regFilterCompile | intros pat].
      apply unstructural_bind; [apply unstructural_eval_reg_filter | intros; exact I].
    + apply unstructural_bind; [apply unstructural_eval_filter | intros; exact I].
  - destruct (String.eqb fop "=~").
    + apply unstructural_bind; [apply unstructural_regFilterCompile | intros pat].
      apply unstructural_bind; [| intros; exact I].
      apply Hloop. intros e. apply unstructural_eval_reg_filter.
    + apply unstructural_bind; [| intros; exact I].
      apply Hloop. intros e. apply unstructural_eval_filter.
Qed.

Lemma unstructural_with_key (obj : option Value) (st : step) :
  unstructural (with_key obj st).
Proof. unfold with_key. break_ifs; [apply unstructural_get_key | exact I]. Qed.

Lemma unstructural_lookup_step (root obj : option Value) (st : step) :
  shaped st = true -> unstructural (lookup_step lib root obj st).
Proof.
  unfold shaped, lookup_step. intros Hshape.
  destruct (String.eqb st.(op) "key").
  { apply unstructural_bind; [apply unstructural_with_key | intros cur].
    destruct st.(args) as [| names | | |]; try discriminate; [exact I|].
    destruct names as [| n0 [| n1 more]]; [discriminate | |].
    - cbn -[get_key]. apply unstructural_bind; [apply unstructural_get_key | intros; exact I].
    - cbn [assert_strings bind].
      replace (Z.of_nat (List.length (n0 :: n1 :: more)) >? 1) with true
        by (symmetry; rewrite Z.gtb_ltb; apply Z.ltb_lt; cbn [List.length]; lia).
      apply unstructural_bind; [| intros; exact I].
      apply unstructural_for_each. intros acc x.
      apply unstructural_bind; [apply unstructural_get_key | intros; exact I]. }
  destruct (String.eqb st.(op) "idx").
  { apply unstructural_bind; [apply unstructural_with_key | intros cur].
    destruct st.(args) as [| | idxs | |]; try discriminate.
    destruct idxs as [| i0 [| i1 more]]; [discriminate | |].
    - cbn -[get_idx]. apply unstructural_bind; [apply unstructural_get_idx | intros; exact I].
    - cbn [assert_ints bind].
      replace (Z.of_nat (List.length (i0 :: i1 :: more)) >? 1) with true
        by (symmetry; rewrite Z.gtb_ltb; apply Z.ltb_lt; cbn [List.length]; lia).
      apply unstructural_bind; [| intros; exact I].
      apply unstructural_for_each. intros acc x.
      apply unstructural_bind; [apply unstructural_get_idx | intros; exact I]. }
  destruct (String.eqb st.(op) "range").
  { apply unstructural_bind; [apply unstructural_with_key | intros cur].
    destruct st.(args); try discriminate.
    apply unstructural_bind; [apply unstructural_get_range | intros; exact I]. }
  destruct (String.eqb st.(op) "filter").
  { apply unstructural_bind; [apply unstructural_get_key | intros cur].
    apply unstructural_bind.
    { unfold assert_string. destruct st.(args); exact I. }
    intros flt.
    apply unstructural_bind; [apply unstructural_get_filtered | intros [isArr ret]].
    break_ifs; try exact I.
    apply unstructural_bind; [apply unstructural_index_at | intros; exact I]. }
  reflexivity.
Qed.

Lemma unstructural_lookup_steps (root obj : option Value) (sts : list step) :
  forallb shaped sts = true -> unstructural (lookup_steps lib root obj sts).
Proof.
  revert obj. induction sts as [| st rest IH]; intros obj H; cbn [lookup_steps].
  - exact I.
  - cbn [forallb] in H. apply andb_prop in H. destruct H as [Hst Hrest].
    apply unstructural_bind; [apply unstructural_lookup_step; exact Hst | intros f].
    destruct f; [apply IH; exact Hrest | exact I].
Qed.

(** X21: the three errors about the payload of a step (empty key list, empty
    index list, slice arguments of the wrong kind) are out of reach of a
    compiled path: whatever the document, [Lookup] of a path that [Compile]
    accepted never returns one of them. *)
Theorem Lookup_no_structural_error (jpath : string) (c : Compiled) (root : option Value) :
  Compile jpath = Ok c ->
  Lookup lib c root <> Err ErrEmptyKeySlice
  /\ Lookup lib c root <> Err ErrEmptyIndexSlice
  /\ Lookup lib c root <> Err ErrRangeArgs.
Proof.
  intros Hc.
  destruct (Compile_steps_of_tokens jpath c Hc) as (tokens & _ & Hsts).
  pose proof (unstructural_lookup_steps root root c.(steps)
                (compile_steps_shaped _ _ Hsts)) as H.
  unfold Lookup. destruct (lookup_steps lib root root c.(steps)) as [x | e | pn];
    [repeat split; discriminate | | repeat split; discriminate].
  simpl in H. repeat split; intros E; injection E as E; subst e; discriminate.
Qed.

End Unstructural.

Lemma Lookup_no_structural_error_witness :
  Compile "$.store.price"
  = Ok (mkCompiled "$.store.price" [mkStep "key" "store" ArgsNil; mkStep "key" "price" ArgsNil])
  /\ Lookup no_golib
       (mkCompiled "$.store.price" [mkStep "key" "store" ArgsNil; mkStep "key" "price" ArgsNil])
       (Some store_doc)
     <> Err ErrEmptyKeySlice.
Proof.
  assert (H : Compile "$.store.price"
              = Ok (mkCompiled "$.store.price"
                      [mkStep "key" "store" ArgsNil; mkStep "key" "price" ArgsNil]))
    by (vm_compute; reflexivity).
  split; [exact H|].
  exact (proj1 (Lookup_no_structural_error no_golib _ _ (Some store_doc) H)).
Defined.

(** ** Slice bounds as written *)

Lemma Index_first (u v : string) (c : ascii) :
  all_chars (fun d => negb (Ascii.eqb d c)) u = true ->
  strings.Index (u ++ String c v) (String c EmptyString) = Z.of_nat (String.length u).
Proof.
  induction u as [| d u IH]; intros H.
  - cbn [String.append strings.Index strings.HasPrefix]. rewrite Ascii.eqb_refl.
    destruct v; reflexivity.
  - simpl in H. apply andb_prop in H. destruct H as [Hd Hu].
    change (String d u ++ String c v) with (String d (u ++ String c v)).
    cbn [strings.Index strings.HasPrefix].
    rewrite Ascii.eqb_sym. apply negb_true_iff in Hd. rewrite Hd. cbn [andb].
    rewrite (IH Hu). cbv zeta.
    replace (Z.of_nat (String.length u) <? 0) with false by (symmetry; apply Z.ltb_ge; lia).
    cbn [String.length]. lia.
Qed.

Lemma substring_whole (v : string) : substring 0 (String.length v) v = v.
Proof. induction v as [| c v IH]; simpl; [reflexivity | rewrite IH; reflexivity]. Qed.

Lemma slice_from_app (u v : string) : slice_from (u ++ v) (String.length u) = v.
Proof.
  unfold slice_from. rewrite length_app_s.
  replace (String.length u + String.length v - String.length u)%nat
    with (String.length v) by lia.
  induction u as [| c u IH]; simpl; [apply substring_whole | exact IH].
Qed.

Lemma slice_inside_brackets (w : string) :
  slice (String "[" (w ++ "]")) 1 (String.length (String "[" (w ++ "]")) - 1) = w.
Proof.
  unfold slice. cbn [String.length]. rewrite length_app_s. cbn [String.length].
  replace (S (String.length w + 1) - 1 - 1)%nat with (String.length w) by lia.
  cbn [substring]. apply substring_prefix.
Qed.

Lemma split_go_no_sep (c : ascii) (text : string) (cur : list ascii) :
  all_chars (fun d => negb (Ascii.eqb d c)) text = true ->
  strings.split_go (String c EmptyString) O cur text
  = [string_of_list_ascii (rev cur ++ list_ascii_of_string text)%list].
Proof.
  revert cur. induction text as [| d r IH]; intros cur H.
  - cbn [strings.split_go list_ascii_of_string]. rewrite app_nil_r. reflexivity.
  - simpl in H. apply andb_prop in H. destruct H as [Hd Hr].
    cbn [strings.split_go strings.HasPrefix].
    rewrite Ascii.eqb_sym. apply negb_true_iff in Hd. rewrite Hd. cbn [andb].
    rewrite (IH (d :: cur) Hr). cbn [rev list_ascii_of_string].
    rewrite <- app_assoc. reflexivity.
Qed.

Lemma split_go_first_sep (c : ascii) (u v : string) (cur : list ascii) :
  all_chars (fun d => negb (Ascii.eqb d c)) u = true ->
  strings.split_go (String c EmptyString) O cur (u ++ String c v)
  = string_of_list_ascii (rev cur ++ list_ascii_of_string u)%list
      :: strings.split_go (String c EmptyString) O [] v.
Proof.
  revert cur. induction u as [| d u IH]; intros cur H.
  - cbn [String.append strings.split_go strings.HasPrefix list_ascii_of_string].
    rewrite Ascii.eqb_refl, app_nil_r.
    replace (strings.HasPrefix v EmptyString) with true by (destruct v; reflexivity).
    reflexivity.
  - simpl in H. apply andb_prop in H. destruct H as [Hd Hu].
    change (String d u ++ String c v) with (String d (u ++ String c v)).
    cbn [strings.split_go strings.HasPrefix].
    rewrite Ascii.eqb_sym. apply negb_true_iff in Hd. rewrite Hd. cbn [andb].
    rewrite (IH (d :: cur) Hu). cbn [rev list_ascii_of_string].
    rewrite <- app_assoc. reflexivity.
Qed.

Lemma Split_two (c : ascii) (u v : string) :
  all_chars (fun d => negb (Ascii.eqb d c)) u = true ->
  all_chars (fun d => negb (Ascii.eqb d c)) v = true ->
  strings.Split (u ++ String c v) (String c EmptyString) = [u; v].
Proof.
  intros Hu Hv. unfold strings.Split.
  rewrite (split_go_first_sep c u v [] Hu), (split_go_no_sep c v [] Hv).
  cbn [rev app]. rewrite !string_of_list_ascii_of_string. reflexivity.
Qed.

Lemma bound_char_parts (text : string) :
  all_chars bound_char text = true ->
  all_chars (fun d => negb (Ascii.eqb d "?")) text = true
  /\ all_chars (fun d => negb (Ascii.eqb d ":")) text = true.
Proof.
  induction text as [| d r IH]; simpl; [split; reflexivity|].
  intros H. apply andb_prop in H. destruct H as [Hd Hr].
  unfold bound_char in Hd. apply andb_prop in Hd. destruct Hd as [Hq Hc].
  destruct (IH Hr) as [IHq IHc]. rewrite Hq, Hc, IHq, IHc. split; reflexivity.
Qed.

(** What [parse_token] makes of a token [key[t0:t1]]: a slice step whose
    error is the one of the upper bound alone. *)
Lemma parse_token_slice (key t0 t1 : string) :
  all_chars (fun d => negb (Ascii.eqb d "[")) key = true ->
  all_chars bound_char t0 = true ->
  all_chars bound_char t1 = true ->
  parse_token (slice_token key t0 t1)
  = mkParsed "range" key
      (ArgsRange (fst (parse_bound t0)) (fst (parse_bound t1)))
      (snd (parse_bound t1)).
Proof.
  intros Hkey H0 H1.
  destruct (bound_char_parts t0 H0) as [H0q H0c].
  destruct (bound_char_parts t1 H1) as [H1q H1c].
  assert (Hlen : (3 <= String.length (slice_token key t0 t1))%nat).
  { unfold slice_token. rewrite !length_app_s. cbn [String.length]. lia. }
  unfold parse_token.
  replace (String.eqb (slice_token key t0 t1) "$") with false
    by (symmetry; apply String.eqb_neq; intros E; rewrite E in Hlen; simpl in Hlen; lia).
  replace (String.eqb (slice_token key t0 t1) "*") with false
    by (symmetry; apply String.eqb_neq; intros E; rewrite E in Hlen; simpl in Hlen; lia).
  cbv zeta.
  assert (Hidx : strings.Index (slice_token key t0 t1) "[" = Z.of_nat (String.length key)).
  { unfold slice_token. change ("[" ++ t0 ++ ":" ++ t1 ++ "]")
      with (String "[" (t0 ++ ":" ++ t1 ++ "]")).
    apply Index_first. exact Hkey. }
  rewrite Hidx, Nat2Z.id.
  replace (Z.of_nat (String.length key) <? 0) with false by (symmetry; apply Z.ltb_ge; lia).
  assert (Hkeyslice : slice (slice_token key t0 t1) 0 (String.length key) = key).
  { unfold slice, slice_token. rewrite Nat.sub_0_r. apply substring_prefix. }
  assert (Htail : slice_from (slice_token key t0 t1) (String.length key)
                  = String "[" ((t0 ++ String ":" t1) ++ "]")).
  { unfold slice_token. rewrite slice_from_app.
    change ("[" ++ t0 ++ ":" ++ t1 ++ "]") with (String "[" (t0 ++ String ":" (t1 ++ "]"))).
    change (String ":" (t1 ++ "]")) with (String ":" t1 ++ "]").
    rewrite <- append_assoc_s. reflexivity. }
  rewrite Hkeyslice, Htail.
  replace (len (String "[" ((t0 ++ String ":" t1) ++ "]")) <? 3) with false
    by (symmetry; apply Z.ltb_ge; unfold len; cbn [String.length];
        rewrite !length_app_s; cbn [String.length]; lia).
  rewrite slice_inside_brackets.
  replace (strings.Contains (t0 ++ String ":" t1) "?") with false
    by (symmetry; unfold strings.Contains; rewrite Index_absent;
        [reflexivity | rewrite all_chars_app; cbn [all_chars]; rewrite H0q, H1q; reflexivity]).
  replace (strings.Contains (t0 ++ String ":" t1) ":") with true
    by (symmetry; unfold strings.Contains; rewrite (Index_first t0 t1 ":" H0c);
        apply Z.leb_le; lia).
  rewrite (Split_two ":" t0 t1 H0c H1c).
  destruct (parse_bound t0) as [frm e0]. destruct (parse_bound t1) as [to e1].
  reflexivity.
Qed.

(** X22: in a token [key[t0:t1]] the lower bound is not checked: when [t0]
    is no number the token is read exactly as [key[:t1]], the lower bound
    left out, and no error tells the two apart. *)
Theorem parse_token_from_bound_unchecked (key t0 t1 : string) (n : Z) (e : error) :
  all_chars (fun d => negb (Ascii.eqb d "[")) key = true ->
  all_chars bound_char t0 = true ->
  all_chars bound_char t1 = true ->
  strconv.Atoi (strings.Trim t0 " ") = (n, Some e) ->
  parse_token (slice_token key t0 t1) = parse_token (slice_token key EmptyString t1).
Proof.
  intros Hkey H0 H1 Hatoi.
  rewrite (parse_token_slice key t0 t1 Hkey H0 H1).
  rewrite (parse_token_slice key EmptyString t1 Hkey eq_refl H1).
  unfold parse_bound at 1. rewrite Hatoi. reflexivity.
Qed.

Lemma parse_token_from_bound_unchecked_witness :
  strconv.Atoi (strings.Trim "x" " ") = (0, Some (ErrAtoi "x"))
  /\ parse_token "book[x:2]" = parse_token "book[:2]"
  /\ parse_token "book[:2]" = mkParsed "range" "book" (ArgsRange None (Some 2)) None.
Proof.
  split; [reflexivity|]. split; [| reflexivity].
  exact (parse_token_from_bound_unchecked "book" "x" "2" 0 (ErrAtoi "x")
           eq_refl eq_refl eq_refl eq_refl).
Defined.

(** ** The raw lookup *)

(** X23: the raw lookup reads the type of the value it found without
    checking that there is one.  For a path that is one bare filter step and
    a document that is an object of which the predicate does not hold,
    [JsonPathLookup] returns no value and no error, and [JsonPathLookupRaw]
    panics on the nil pointer. *)
Theorem JsonPathLookupRaw_unmatched_filter_panics
  (lib : GoLib) (F : Type) (ParseBestEffort : string -> F)
  (v : Value) (p flt lp fop rp : string) :
  Compile p = Ok (mkCompiled p [mkStep "filter" EmptyString (ArgsString flt)]) ->
  v.(t) = TypeObject ->
  parse_filter flt = Ok (lp, fop, rp) ->
  filter_matches lib (Some v) (Some v) lp fop rp = Ok false ->
  JsonPathLookup lib (Some v) p = Ok None
  /\ JsonPathLookupRaw lib F ParseBestEffort (Some v) p = Panic NilDereference.
Proof.
  intros Hc Ht Hparse Hno.
  assert (Hlook : Lookup lib (mkCompiled p [mkStep "filter" EmptyString (ArgsString flt)])
                    (Some v) = Ok None).
  { unfold Lookup. cbn [steps lookup_steps].
    rewrite (lookup_step_filter lib (Some v) (Some v)
               (mkStep "filter" EmptyString (ArgsString flt)) v flt
               eq_refl eq_refl eq_refl).
    rewrite (get_filtered_object lib v (Some v) flt lp fop rp Hparse Ht), Hno.
    reflexivity. }
  split.
  - unfold JsonPathLookup. rewrite Hc. cbn [bind]. exact Hlook.
  - unfold JsonPathLookupRaw. rewrite Hc. cbn [bind]. rewrite Hlook. reflexivity.
Qed.

Lemma JsonPathLookupRaw_unmatched_filter_panics_witness :
  Compile "$[?(@.isbn)]"
  = Ok (mkCompiled "$[?(@.isbn)]" [mkStep "filter" EmptyString (ArgsString "@.isbn")])
  /\ parse_filter "@.isbn" = Ok ("@.isbn", "exists", EmptyString)
  /\ JsonPathLookupRaw no_golib Z (fun _ => 0) (Some store_doc) "$[?(@.isbn)]"
     = Panic NilDereference.
Proof.
  split; [reflexivity|]. split; [reflexivity|].
  exact (proj2 (JsonPathLookupRaw_unmatched_filter_panics no_golib Z (fun _ => 0)
                  store_doc "$[?(@.isbn)]" "@.isbn" "@.isbn" "exists" EmptyString
                  eq_refl eq_refl eq_refl eq_refl)).
Defined.
